(** * thermonets: coordinate transforms and the exponential density fit

    A shallow embedding of [thermonets/_util.py] ([cart2geo], [geo2cart]) and
    [thermonets/_density.py] ([rho_approximation], [global_fit_udp]).

    The Python code is written against a numeric backend ([np] or [hy]); the
    embedding keeps that shape: every function is generic in a [Backend], and
    the backend is instantiated with the real numbers (exact arithmetic) and
    with the binary64 floats of the kernel (IEEE 754 arithmetic).

    The first part holds the definitions: the Python values, the backend,
    the source, the backends, the specification's formulas and the heap
    model. The second part holds the theorems. *)

From Stdlib Require Import Floats.
From Stdlib Require Import ZArith List Bool Lia Lra.
From Stdlib Require Import Reals.
Import ListNotations.


Set Warnings "-inexact-float".

(** ** Python values and control *)

Module Py.

(** The exceptions the modelled code can raise. *)
Inductive exn : Type :=
| UnboundLocalError   (* a local variable read before assignment *)
| ValueError          (* numpy: operands could not be broadcast together *)
| InvalidArgument.    (* raised by an external gradient estimator *)

Inductive result (A : Type) : Type :=
| Ok (a : A)
| Raise (e : exn).
Arguments Ok {A} a.
Arguments Raise {A} e.

Definition bind {A B} (r : result A) (k : A -> result B) : result B :=
  match r with
  | Ok a => k a
  | Raise e => Raise e
  end.

Definition is_ok {A} (r : result A) : bool :=
  match r with Ok _ => true | Raise _ => false end.

(** [l[a:b]] for indices [0 <= a], [0 <= b]: both ends are clamped to the
    length, and the slice is empty when [b <= a]. *)
Definition slice {A} (l : list A) (a b : nat) : list A :=
  firstn (b - a) (skipn a l).

(** [l * k] on lists: [k] copies of [l], none when [k <= 0]. *)
Definition list_mul {A} (l : list A) (k : Z) : list A :=
  concat (repeat l (Z.to_nat k)).

(** The start index of [l[i:]] after Python's normalisation: a negative index
    counts from the end, and the result is clamped to [0 .. len l]. *)
Definition norm_index (len : nat) (i : Z) : nat :=
  if (i <? 0)%Z then Z.to_nat (Z.max 0 (Z.of_nat len + i))
  else Nat.min (Z.to_nat i) len.

(** [l[i:] = r]: the tail of [l] from [i] on is replaced by [r]. *)
Definition set_slice_from {A} (l : list A) (i : Z) (r : list A) : list A :=
  firstn (norm_index (length l) i) l ++ r.

(** [zip(a, b, c)]: stops at the shortest argument. *)
Fixpoint zip3 {A} (a b c : list A) : list (A * A * A) :=
  match a, b, c with
  | x :: a', y :: b', z :: c' => (x, y, z) :: zip3 a' b' c'
  | _, _, _ => []
  end.

(** A number in a Python list literal: an [int] or a [float]. *)
Inductive num : Type :=
| Int (z : Z)
| Float (f : float).

End Py.

Import Py.

Declare Scope py_scope.
Delimit Scope py_scope with py.
Notation "x <- c ;; k" := (Py.bind c (fun x => k))
  (at level 61, c at next level, right associativity) : py_scope.

(** ** The numeric backend

    [cart2geo] and [geo2cart] pick [backend = np] or [backend = hy] and call
    [backend.sqrt], [backend.sin], ... on it; [rho_approximation] and
    [global_fit_udp] use [np]. [Backend T] is that capability over a carrier
    [T]. *)

Class Backend (T : Type) : Type := {
  b_const : Z -> T;          (* an [int] literal or count promoted to [T] *)
  b_add : T -> T -> T;
  b_sub : T -> T -> T;
  b_mul : T -> T -> T;
  b_div : T -> T -> T;
  b_neg : T -> T;
  b_sqr : T -> T;            (* [x ** 2] *)
  b_sqrt : T -> T;
  b_sin : T -> T;
  b_cos : T -> T;
  b_atan : T -> T;
  b_atan2 : T -> T -> T;
  b_exp : T -> T;
  b_log10 : T -> T;
  b_abs : T -> T
}.

Declare Scope backend_scope.
Delimit Scope backend_scope with B.
Infix "+" := b_add : backend_scope.
Infix "-" := b_sub : backend_scope.
Infix "*" := b_mul : backend_scope.
Infix "/" := b_div : backend_scope.
Notation "- x" := (b_neg x) : backend_scope.

(** ** The source, generic in the backend *)

Section Source.

Context {T : Type} `{Backend T}.
Local Open Scope backend_scope.

(** *** [_density.py] *)

(** One pass of the loop body of [rho_approximation]:
    [retval += alpha * np.exp(-(h - gamma) * beta)], on whole arrays. *)
Definition rho_step (h : list T) (retval : list T) (abg : T * T * T) : list T :=
  let '(alpha, beta, gamma) := abg in
  map (fun rh => fst rh + alpha * b_exp (- (snd rh - gamma) * beta))
      (combine retval h).

Definition rho_approximation (h : list T) (params : list T) : list T :=
  let n := (length params / 3)%nat in
  let alphas := slice params 0 n in
  let betas := slice params n (2 * n) in
  let gammas := slice params (2 * n) (3 * n) in
  let retval := repeat (b_const 0) (length h) in
  fold_left (rho_step h) (zip3 alphas betas gammas) retval.

(** The contribution of one term [(alpha, beta, gamma)] at altitude [hj]. *)
Definition rho_term (abg : T * T * T) (hj : T) : T :=
  let '(alpha, beta, gamma) := abg in
  alpha * b_exp (- (hj - gamma) * beta).

(** numpy's elementwise binary operation on two one-dimensional arrays:
    equal shapes go elementwise, a one-element array is broadcast, and any
    other pair of shapes raises [ValueError]. *)
Definition broadcast2 (f : T -> T -> T) (a b : list T) : result (list T) :=
  if Nat.eqb (length a) (length b) then Ok (map (fun ab => f (fst ab) (snd ab)) (combine a b))
  else match a, b with
       | [x], _ => Ok (map (f x) b)
       | _, [y] => Ok (map (fun x => f x y) a)
       | _, _ => Raise ValueError
       end.

(** [np.sum], as a running sum from [0]; numpy may add in another order,
    which matters to rounding only. *)
Definition np_sum (a : list T) : T := fold_left b_add a (b_const 0).

(** [np.mean]: the sum over the count; on an empty array this is [0 / 0]. *)
Definition np_mean (a : list T) : T :=
  np_sum a / b_const (Z.of_nat (length a)).

(** The object [global_fit_udp(X, Y, n)]. *)
Record global_fit_udp : Type := {
  X : list T;
  Y : list T;
  n : Z
}.

Definition fitness (self : global_fit_udp) (x : list T) : result (list T) :=
  (let Y_pred := rho_approximation (X self) x in
   d <- broadcast2 b_sub (map b_log10 (Y self)) (map b_log10 Y_pred) ;;
   Ok [np_mean (map b_abs d)])%py.

Definition get_bounds (self : global_fit_udp) : list num * list num :=
  let lb := list_mul (list_mul [Int 0] (n self)) 3 in
  let ub := list_mul (list_mul [Float 1e-1] (n self)) 3 in
  let ub := set_slice_from ub (n self * 2) (list_mul [Int 100] (n self)) in
  (lb, ub).

(** *** [_util.py] *)

(** The locals the loop of [cart2geo] assigns: [h] is unbound until the
    first pass. *)
Record geo_locals : Type := {
  loc_h : option T;
  loc_phi : T
}.

Definition cart2geo_body (z p e2 R_eq : T) (st : geo_locals) : geo_locals :=
  let phi := loc_phi st in
  let N := R_eq / b_sqrt (b_const 1 - e2 * b_sqr (b_sin phi)) in
  let h := p / b_cos phi - N in
  let phi := b_atan (z / p / (b_const 1 - e2 * N / (N + h))) in
  {| loc_h := Some h; loc_phi := phi |}.

Definition cart2geo (x y z e2 R_eq : T) (iters : Z) : result (T * T * T) :=
  let long := b_atan2 y x in
  let p := b_sqrt (b_sqr x + b_sqr y) in
  let phi := b_atan (z / p / (b_const 1 - e2)) in
  let st := Nat.iter (Z.to_nat iters) (cart2geo_body z p e2 R_eq)
                     {| loc_h := None; loc_phi := phi |} in
  match loc_h st with
  | Some h => Ok (h, loc_phi st, long)
  | None => Raise UnboundLocalError
  end.

Definition geo2cart (h lat lon e2 R_eq : T) : T * T * T :=
  let N := R_eq / b_sqrt (b_const 1 - e2 * b_sqr (b_sin lat)) in
  let x := (N + h) * b_cos lat * b_cos lon in
  let y := (N + h) * b_cos lat * b_sin lon in
  let z := ((b_const 1 - e2) * N + h) * b_sin lat in
  (x, y, z).

End Source.

Arguments global_fit_udp T : clear implicits.
Arguments geo_locals T : clear implicits.

(** ** The backend of exact arithmetic: the real numbers *)

Module RealBackend.

Local Open Scope R_scope.

Definition log10 (x : R) : R := ln x / ln 10.

(** The two-argument arctangent, by quadrant. *)
Definition atan2 (y x : R) : R :=
  if Rlt_dec 0 x then atan (y / x)
  else if Rlt_dec x 0 then
         if Rle_dec 0 y then atan (y / x) + PI else atan (y / x) - PI
       else if Rlt_dec 0 y then PI / 2
            else if Rlt_dec y 0 then - (PI / 2) else 0.

#[export] Instance real_backend : Backend R := {|
  b_const := IZR;
  b_add := Rplus;
  b_sub := Rminus;
  b_mul := Rmult;
  b_div := Rdiv;
  b_neg := Ropp;
  b_sqr := Rsqr;
  b_sqrt := sqrt;
  b_sin := sin;
  b_cos := cos;
  b_atan := atan;
  b_atan2 := atan2;
  b_exp := exp;
  b_log10 := log10;
  b_abs := Rabs
|}.

End RealBackend.

(** ** The specification's formulas, over the reals *)

Module RealSpec.

Import RealBackend.
Local Open Scope R_scope.

(** The sum of exponentials the parameters [params] (of length [3k]) denote,
    at altitude [hj]: the sum over [i = 0 .. k-1] of
    [alpha_i * exp(-(hj - gamma_i) * beta_i)]. *)
Definition rho_model (k : nat) (params : list R) (hj : R) : R :=
  sum_f_R0 (fun i => nth i params 0
                     * exp (- (hj - nth (2 * k + i) params 0) * nth (k + i) params 0))
           (k - 1).

(** The log-scale mean absolute error of a prediction [P] against [Y] over
    [m] points. *)
Definition log_mae (m : nat) (Y P : nat -> R) : R :=
  sum_f_R0 (fun i => Rabs (log10 (Y i) - log10 (P i))) (m - 1) / INR m.

(** The algorithm of [cartesianToGeodetic] as the specification words it. *)

Definition spec_p (x y : R) : R := sqrt (x ^ 2 + y ^ 2).

Definition spec_phi0 (z p e2 : R) : R := atan (z / (p * (1 - e2))).

(** One refinement step from the latitude [phi]: the altitude [h] and the
    next latitude. *)
Definition spec_refine (z p e2 R_eq phi : R) : R * R :=
  let N := R_eq / sqrt (1 - e2 * sin phi ^ 2) in
  let h := p / cos phi - N in
  (h, atan (z / (p * (1 - e2 * N / (N + h))))).

(** The latitude after [k] refinement steps. *)
Definition spec_phi (z p e2 R_eq : R) (k : nat) : R :=
  Nat.iter k (fun phi => snd (spec_refine z p e2 R_eq phi)) (spec_phi0 z p e2).

End RealSpec.

(** ** IEEE 754 special values: classes of specification floats *)

Module SpecClass.

Definition sf_is_nan (s : spec_float) : bool :=
  match s with S754_nan => true | _ => false end.

Definition sf_inf_or_nan (s : spec_float) : bool :=
  match s with S754_infinity _ | S754_nan => true | _ => false end.

Definition sf_zero_or_nan (s : spec_float) : bool :=
  match s with S754_zero _ | S754_nan => true | _ => false end.

Definition sf_is_finite (s : spec_float) : bool :=
  match s with S754_zero _ | S754_finite _ _ _ => true | _ => false end.

(** A number that is not minus infinity: what [log10] returns on a positive
    argument. *)
Definition sf_above_neg_inf (s : spec_float) : bool :=
  match s with S754_nan | S754_infinity true => false | _ => true end.

End SpecClass.

(** ** The backend of binary64 arithmetic

    [np] computes on IEEE 754 binary64 numbers. Addition, subtraction,
    multiplication, division, square root, negation and absolute value are
    the kernel's primitive operations; the elementary functions of the C
    library are a parameter [libm]. *)

Module FloatBackend.

Import SpecClass.

Record libm : Type := {
  m_pow2 : float -> float;           (* [x ** 2] *)
  m_sin : float -> float;
  m_cos : float -> float;
  m_atan : float -> float;
  m_atan2 : float -> float -> float;
  m_exp : float -> float;
  m_log10 : float -> float
}.

(** An [int] converted to a [float]: the nearest binary64 number. *)
Definition float_of_Z (z : Z) : float :=
  SF2Prim (binary_normalize prec emax z 0 false).

Definition float_backend (L : libm) : Backend float := {|
  b_const := float_of_Z;
  b_add := PrimFloat.add;
  b_sub := PrimFloat.sub;
  b_mul := PrimFloat.mul;
  b_div := PrimFloat.div;
  b_neg := PrimFloat.opp;
  b_sqr := m_pow2 L;
  b_sqrt := PrimFloat.sqrt;
  b_sin := m_sin L;
  b_cos := m_cos L;
  b_atan := m_atan L;
  b_atan2 := m_atan2 L;
  b_exp := m_exp L;
  b_log10 := m_log10 L;
  b_abs := PrimFloat.abs
|}.

(** The WGS84 constants of [_util.py] and the default [e2]. *)
Definition a_earth : float := 6378137.0.
Definition b_earth : float := 6356752.314245.
Definition default_e2 (L : libm) : float :=
  (1 - m_pow2 L b_earth / m_pow2 L a_earth)%float.

(** What C99 (Annex F) fixes of the elementary functions at the special
    values the claims meet. *)
Definition cos_nan (L : libm) : Prop := m_cos L nan = nan.
Definition atan_nan (L : libm) : Prop := m_atan L nan = nan.
Definition pow2_zero (L : libm) : Prop :=
  m_pow2 L zero = zero /\ m_pow2 L neg_zero = zero.
Definition exp_zero (L : libm) : Prop :=
  m_exp L zero = one /\ m_exp L neg_zero = one.
Definition log10_zero (L : libm) : Prop := m_log10 L zero = neg_infinity.
Definition log10_positive (L : libm) : Prop :=
  forall y, (0 <? y)%float = true ->
            sf_above_neg_inf (Prim2SF (m_log10 L y)) = true.

Definition is_finite (x : float) : bool := sf_is_finite (Prim2SF x).

End FloatBackend.

(** ** A reference instance of the elementary functions

    Low-order approximations written with the primitive operations. They
    show that the special-value conditions asked of [libm] can be met
    together, and give a backend on which the model runs. *)

Module RefLibm.

Import SpecClass FloatBackend.
Local Open Scope float_scope.

Definition half_pi : float := 0x1.921fb54442d18p+0.
Definition pi : float := 0x1.921fb54442d18p+1.
Definition ln2 : float := 0x1.62e42fefa39efp-1.
Definition ln10 : float := 0x1.26bb1bbb55516p+1.

Definition pow2 (x : float) : float := x * x.

(** Taylor polynomials about [0]. *)
Definition sin (x : float) : float :=
  let x2 := x * x in
  x * (1 - x2 / 6 * (1 - x2 / 20 * (1 - x2 / 42))).

Definition cos (x : float) : float :=
  let x2 := x * x in
  1 - x2 / 2 * (1 - x2 / 12 * (1 - x2 / 30)).

(** [x / (1 + 0.28125 x^2)] on [[-1, 1]], reflected outside. *)
Definition atan (x : float) : float :=
  if PrimFloat.abs x <=? 1 then x / (1 + 0.28125 * (x * x))
  else if 1 <? x then half_pi - x / (x * x + 0.28125)
       else - half_pi - x / (x * x + 0.28125).

Definition atan2 (y x : float) : float :=
  if 0 <? x then atan (y / x)
  else if x <? 0 then
         if 0 <=? y then atan (y / x) + pi else atan (y / x) - pi
       else if 0 <? y then half_pi
            else if y <? 0 then - half_pi else 0.

(** [(1 + x / 2^10) ^ (2^10)], by ten squarings. *)
Definition exp (x : float) : float :=
  Nat.iter 10 (fun t => t * t) (1 + x / 1024).

(** [log10 (m * 2^e) = (e * ln 2 + ln m) / ln 10], with [ln m] from the
    series of [2 * atanh ((m - 1) / (m + 1))]. *)
Definition log10_finite (x : float) : float :=
  let (m, e) := Z.frexp x in
  let t := (m - 1) / (m + 1) in
  let t2 := t * t in
  (float_of_Z e * ln2 + 2 * t * (1 + t2 / 3 + t2 * t2 / 5)) / ln10.

Definition log10 (x : float) : float :=
  match classify x with
  | PZero | NZero => neg_infinity
  | PInf => infinity
  | PNormal | PSubn =>
      let r := log10_finite x in
      if is_finite r then r else 0
  | NaN | NInf | NNormal | NSubn => nan
  end.

Definition ref_libm : libm := {|
  m_pow2 := pow2;
  m_sin := sin;
  m_cos := cos;
  m_atan := atan;
  m_atan2 := atan2;
  m_exp := exp;
  m_log10 := log10
|}.

End RefLibm.

(** ** An instance with the C99 values at infinities and signed zeros

    The arctangent of an infinity is [pi/2] with its sign, and [atan2]
    follows Annex F at NaN, infinite and zero arguments; the other functions
    are those of [RefLibm]. *)

Module C99Libm.

Import FloatBackend.
Local Open Scope float_scope.

Definition quarter_pi : float := 0x1.921fb54442d18p-1.
Definition three_quarter_pi : float := 0x1.2d97c7f3321d2p+1.

Definition atan (x : float) : float :=
  match classify x with
  | PInf => RefLibm.half_pi
  | NInf => - RefLibm.half_pi
  | _ => RefLibm.atan x
  end.

(** [s] carries the sign of [y] onto the magnitude [m]. *)
Definition with_sign_of (y m : float) : float :=
  if get_sign y then - m else m.

Definition atan2 (y x : float) : float :=
  if PrimFloat.is_nan x || PrimFloat.is_nan y then nan
  else if is_infinity y then
         with_sign_of y (if is_infinity x
                         then if get_sign x then three_quarter_pi else quarter_pi
                         else RefLibm.half_pi)
  else if is_infinity x then with_sign_of y (if get_sign x then RefLibm.pi else 0)
  else if is_zero y then with_sign_of y (if get_sign x then RefLibm.pi else 0)
  else if is_zero x then with_sign_of y RefLibm.half_pi
  else if get_sign x then atan (y / x) + with_sign_of y RefLibm.pi
  else atan (y / x).

Definition c99_libm : libm := {|
  m_pow2 := RefLibm.pow2;
  m_sin := RefLibm.sin;
  m_cos := RefLibm.cos;
  m_atan := atan;
  m_atan2 := atan2;
  m_exp := RefLibm.exp;
  m_log10 := RefLibm.log10
|}.

End C99Libm.

(** ** The fit problem as an object on a heap

    numpy arrays and Python lists are mutable objects: [retval += ...] and
    [ub[self.n*2:] = ...] update in place. Here the attributes of [self] hold
    references into a store of objects, and the methods run in a monad of
    state and exceptions over it. *)

Module Heap.

Section Model.

Context {T : Type} `{Backend T}.

Definition loc : Type := nat.

Inductive obj : Type :=
| NdArray (a : list T)
| PyList (l : list num).

(** The attributes of [self], and the objects allocated so far. *)
Record state : Type := {
  self_X : loc;
  self_Y : loc;
  self_n : Z;
  store : list obj
}.

Definition set_store (s : state) (st : list obj) : state :=
  {| self_X := self_X s; self_Y := self_Y s; self_n := self_n s; store := st |}.

Definition M (A : Type) : Type := state -> result A * state.

Definition ret {A} (a : A) : M A := fun s => (Ok a, s).

Definition lift {A} (r : result A) : M A := fun s => (r, s).

Definition bindM {A B} (m : M A) (k : A -> M B) : M B :=
  fun s => match m s with
           | (Ok a, s') => k a s'
           | (Raise e, s') => (Raise e, s')
           end.

Fixpoint list_set {A} (l : list A) (i : nat) (a : A) : list A :=
  match l, i with
  | [], _ => []
  | _ :: l', O => a :: l'
  | x :: l', S i' => x :: list_set l' i' a
  end.

Definition alloc (o : obj) : M loc :=
  fun s => (Ok (length (store s)), set_store s (store s ++ [o])).

(** The array at [l]; a reference to anything else reads as empty. *)
Definition array_at (st : list obj) (l : loc) : list T :=
  match nth_error st l with
  | Some (NdArray a) => a
  | _ => []
  end.

Definition list_at (st : list obj) (l : loc) : list num :=
  match nth_error st l with
  | Some (PyList a) => a
  | _ => []
  end.

Definition load (l : loc) : M (list T) := fun s => (Ok (array_at (store s) l), s).

Definition load_list (l : loc) : M (list num) := fun s => (Ok (list_at (store s) l), s).

Definition write (l : loc) (o : obj) : M unit :=
  fun s => (Ok tt, set_store s (list_set (store s) l o)).

Definition get_X : M loc := fun s => (Ok (self_X s), s).
Definition get_Y : M loc := fun s => (Ok (self_Y s), s).
Definition get_n : M Z := fun s => (Ok (self_n s), s).

Fixpoint for_each {A} (l : list A) (body : A -> M unit) : M unit :=
  match l with
  | [] => ret tt
  | a :: l' => bindM (body a) (fun _ => for_each l' body)
  end.

Local Notation "x <- c ;; k" := (bindM c (fun x => k))
  (at level 61, c at next level, right associativity).
Local Notation "c ;;; k" := (bindM c (fun _ => k))
  (at level 61, right associativity).

(** [retval += alpha * np.exp(-(h - gamma) * beta)]: the right-hand side is
    a fresh temporary, the sum is stored back into [retval]. *)
Definition iadd_term (h retval : loc) (abg : T * T * T) : M unit :=
  hv <- load h ;;
  rv <- load retval ;;
  write retval (NdArray (rho_step hv rv abg)).

Definition rho_approximation_h (h : loc) (params : list T) : M loc :=
  let n := (length params / 3)%nat in
  let alphas := slice params 0 n in
  let betas := slice params n (2 * n) in
  let gammas := slice params (2 * n) (3 * n) in
  hv <- load h ;;
  retval <- alloc (NdArray (repeat (b_const 0) (length hv))) ;;
  for_each (zip3 alphas betas gammas) (iadd_term h retval) ;;;
  ret retval.

Definition fitness_h (x : list T) : M (list T) :=
  Xl <- get_X ;;
  Y_pred <- rho_approximation_h Xl x ;;
  Yl <- get_Y ;;
  yv <- load Yl ;;
  pv <- load Y_pred ;;
  d <- lift (broadcast2 b_sub (map b_log10 yv) (map b_log10 pv)) ;;
  ret [np_mean (map b_abs d)].

(** [pg.estimate_gradient] belongs to pygmo; the model takes it as a
    parameter of [gradient_h]. *)
Definition estimator : Type := (list T -> M (list T)) -> list T -> M (list T).

Definition gradient_h (estimate_gradient : estimator) (x : list T) : M (list T) :=
  estimate_gradient (fun x => fitness_h x) x.

Definition get_bounds_h : M (list num * list num) :=
  k <- get_n ;;
  lb <- alloc (PyList (list_mul (list_mul [Int 0] k) 3)) ;;
  ub <- alloc (PyList (list_mul (list_mul [Float 1e-1] k) 3)) ;;
  k2 <- get_n ;;
  old <- load_list ub ;;
  write ub (PyList (set_slice_from old (k2 * 2) (list_mul [Int 100] k2))) ;;;
  lbv <- load_list lb ;;
  ubv <- load_list ub ;;
  ret (lbv, ubv).

(** A call an optimizer makes on the problem. *)
Inductive call : Type :=
| CallFitness (x : list T)
| CallGradient (x : list T)
| CallBounds.

Definition do_call (estimate_gradient : estimator) (c : call) (s : state) : state :=
  match c with
  | CallFitness x => snd (fitness_h x s)
  | CallGradient x => snd (gradient_h estimate_gradient x s)
  | CallBounds => snd (get_bounds_h s)
  end.

(** The states after each call of a sequence. *)
Fixpoint trace (estimate_gradient : estimator) (calls : list call) (s : state)
  : list state :=
  match calls with
  | [] => []
  | c :: calls' =>
      let s' := do_call estimate_gradient c s in
      s' :: trace estimate_gradient calls' s'
  end.

(** The problem as a value: the dataset the attributes refer to. *)
Definition view (s : state) : global_fit_udp T :=
  {| X := array_at (store s) (self_X s);
     Y := array_at (store s) (self_Y s);
     n := self_n s |}.

(** Central differences with a step chosen per coordinate: a gradient
    estimator that does nothing but call the objective. *)
Definition set_nth (x : list T) (j : nat) (v : T) : list T := list_set x j v.

Definition central_difference_at (step : T -> T) (f : list T -> M (list T))
           (x : list T) (j : nat) : M (list T) :=
  let xj := nth j x (b_const 0) in
  let hstep := step xj in
  f_r <- f (set_nth x j (b_add xj hstep)) ;;
  f_l <- f (set_nth x j (b_sub xj hstep)) ;;
  if Nat.eqb (length f_r) (length f_l)
  then ret (map (fun rl => b_div (b_div (b_sub (fst rl) (snd rl)) (b_const 2)) hstep)
                (combine f_r f_l))
  else lift (Raise InvalidArgument).

Fixpoint central_difference_from (step : T -> T) (f : list T -> M (list T))
         (x : list T) (js : list nat) : M (list T) :=
  match js with
  | [] => ret []
  | j :: js' =>
      g <- central_difference_at step f x j ;;
      gs <- central_difference_from step f x js' ;;
      ret (g ++ gs)
  end.

Definition central_difference (step : T -> T) : estimator :=
  fun f x =>
    _f0 <- f x ;;
    central_difference_from step f x (seq 0 (length x)).

End Model.

Arguments obj T : clear implicits.
Arguments state T : clear implicits.
Arguments M T A : clear implicits.
Arguments estimator T : clear implicits.
Arguments call T : clear implicits.

Section Invariants.

Context {T : Type} `{Backend T}.

(** [s] keeps the attributes of [s0] and every object of [s0]. *)
Definition extends (s0 s : state T) : Prop :=
  self_X s = self_X s0 /\ self_Y s = self_Y s0 /\ self_n s = self_n s0 /\
  exists ext, store s = store s0 ++ ext.

Definition well_formed (s : state T) : Prop :=
  (self_X s < length (store s))%nat /\ (self_Y s < length (store s))%nat.

(** What is asked of a gradient estimator: it acts on the state through
    its calls of the objective only, so it keeps whatever every such call
    keeps. *)
Definition calls_objective_only (est : estimator T) : Prop :=
  forall (I : state T -> Prop) (f : list T -> M T (list T)) (x : list T),
    (forall y s, I s -> I (snd (f y s))) ->
    forall s, I s -> I (snd (est f x s)).

(** The dataset of [s0] is intact in [s]: the attributes [X], [Y] and [n]
    hold what they held, and every object of [s0], the arrays behind [X]
    and [Y] among them, is unchanged. *)
Definition keeps_dataset (s0 s : state T) : Prop :=
  self_X s = self_X s0 /\ self_Y s = self_Y s0 /\ self_n s = self_n s0 /\
  view s = view s0 /\
  forall l, (l < length (store s0))%nat ->
            nth_error (store s) l = nth_error (store s0) l.

End Invariants.

End Heap.

Module HeapExample.

Import Heap RealBackend.
Local Open Scope R_scope.

(** A problem with one altitude, and an optimizer's three calls on it. *)
Definition s0 : state R :=
  {| self_X := 0%nat; self_Y := 1%nat; self_n := 1%Z;
     store := [NdArray [5]; NdArray [1]] |}.

Definition est : estimator R := central_difference (fun _ => 1 / 100000000).

End HeapExample.

(** ** The other helpers of [_util.py] *)

(** [data.min()], [data.max()] and the comparisons behind them. *)
Class BackendOrd (T : Type) : Type := {
  b_min : T -> T -> T;
  b_max : T -> T -> T
}.

Module Torch.

(** torch raises [RuntimeError] where numpy raises [ValueError]. *)
Inductive result (A : Type) : Type :=
| Ok (a : A)
| RuntimeError.
Arguments Ok {A} a.
Arguments RuntimeError {A}.

End Torch.

Section Util.

Context {T : Type} `{Backend T} `{BackendOrd T}.
Local Open Scope backend_scope.

(** [data.min()]: a reduction with no identity, which raises on an empty
    array. *)
Definition array_min (data : list T) : result T :=
  match data with
  | [] => Raise ValueError
  | x :: l => Ok (fold_left b_min l x)
  end.

Definition array_max (data : list T) : result T :=
  match data with
  | [] => Raise ValueError
  | x :: l => Ok (fold_left b_max l x)
  end.

Definition normalize_min_max (data : list T) (min_val max_val : option T)
  : result (list T) :=
  (min_val <- match min_val with
              | None => array_min data
              | Some m => Ok m
              end ;;
   max_val <- match max_val with
              | None => array_max data
              | Some m => Ok m
              end ;;
   Ok (map (fun d => b_const 2 * (d - min_val) / (max_val - min_val) - b_const 1) data))%py.

Definition unnormalize_min_max (data : list T) (min_val max_val : T) : list T :=
  map (fun d => b_const 1 / b_const 2 * (d + b_const 1) * (max_val - min_val) + min_val)
      data.

(** torch's elementwise operation on two one-dimensional tensors. *)
Definition torch_broadcast2 (f : T -> T -> T) (a b : list T) : Torch.result (list T) :=
  if Nat.eqb (length a) (length b)
  then Torch.Ok (map (fun ab => f (fst ab) (snd ab)) (combine a b))
  else match a, b with
       | [x], _ => Torch.Ok (map (f x) b)
       | _, [y] => Torch.Ok (map (fun x => f x y) a)
       | _, _ => Torch.RuntimeError
       end.

Definition mean_absolute_percentage_error (y_true y_pred : list T) : Torch.result T :=
  match torch_broadcast2 b_sub y_true y_pred with
  | Torch.RuntimeError => Torch.RuntimeError
  | Torch.Ok d =>
      match torch_broadcast2 b_div d y_true with
      | Torch.RuntimeError => Torch.RuntimeError
      | Torch.Ok q => Torch.Ok (np_mean (map b_abs q) * b_const 100)
      end
  end.

End Util.

Module RealOrd.

#[export] Instance real_ord : BackendOrd R := {|
  b_min := Rmin;
  b_max := Rmax
|}.

End RealOrd.

Module FloatOrd.

(** [min] and [max] on binary64 numbers, a NaN operand winning. *)
Definition fmin (a b : float) : float :=
  if PrimFloat.is_nan a then a
  else if PrimFloat.is_nan b then b
       else if (b <? a)%float then b else a.

Definition fmax (a b : float) : float :=
  if PrimFloat.is_nan a then a
  else if PrimFloat.is_nan b then b
       else if (a <? b)%float then b else a.

Definition float_ord : BackendOrd float := {|
  b_min := fmin;
  b_max := fmax
|}.

End FloatOrd.


(** * Theorems *)

(** ** Lists: slices, zips and folds *)

Section ListFacts.

Context {A : Type}.

Lemma slice_nth (l : list A) (a b i : nat) (d : A) :
  (a <= b)%nat -> (b <= length l)%nat -> (i < b - a)%nat ->
  nth i (slice l a b) d = nth (a + i) l d.
Proof.
  intros Hab Hb Hi. unfold slice.
  rewrite nth_firstn.
  destruct (Nat.ltb_spec i (b - a)) as [_ | Hge]; [ | lia ].
  now rewrite nth_skipn.
Qed.

Lemma slice_length (l : list A) (a b : nat) :
  (a <= b)%nat -> (b <= length l)%nat -> length (slice l a b) = (b - a)%nat.
Proof.
  intros Hab Hb. unfold slice.
  rewrite length_firstn, length_skipn. lia.
Qed.

Lemma zip3_length (a b c : list A) (k : nat) :
  length a = k -> length b = k -> length c = k -> length (zip3 a b c) = k.
Proof.
  revert b c k. induction a as [ | x a IH ]; intros [ | y b ] [ | z c ] k Ha Hb Hc;
    simpl in *; try congruence.
  destruct k as [ | k ]; [ discriminate | ].
  f_equal. apply IH; congruence.
Qed.

Lemma zip3_nth (a b c : list A) (i : nat) (d : A) :
  length a = length b -> length b = length c -> (i < length a)%nat ->
  nth i (zip3 a b c) (d, d, d) = (nth i a d, nth i b d, nth i c d).
Proof.
  revert b c i. induction a as [ | x a IH ]; intros [ | y b ] [ | z c ] i Hab Hbc Hi;
    simpl in *; try discriminate; try lia.
  destruct i as [ | i ]; [ reflexivity | ].
  apply IH; try congruence; lia.
Qed.

Lemma combine_map_fst {B : Type} (g : A * B -> A) (r : list A) (h : list B) :
  combine (map g (combine r h)) h = map (fun rh => (g rh, snd rh)) (combine r h).
Proof.
  revert h. induction r as [ | x r IH ]; intros [ | y h ]; simpl; try reflexivity.
  now rewrite IH.
Qed.

Lemma map_fst_combine {B : Type} (r : list A) (h : list B) :
  length r = length h -> map fst (combine r h) = r.
Proof.
  revert h. induction r as [ | x r IH ]; intros [ | y h ] Hl; simpl in *;
    try discriminate; try reflexivity.
  f_equal. apply IH. congruence.
Qed.

Lemma combine_repeat_l {B : Type} (x : A) (h : list B) :
  combine (repeat x (length h)) h = map (fun y => (x, y)) h.
Proof. induction h as [ | y h IH ]; simpl; [ reflexivity | now rewrite IH ]. Qed.

Lemma fold_left_map_seq {B : Type} (f : B -> A -> B) (g : nat -> A) (k : nat) (b : B) :
  fold_left f (map g (seq 0 k)) b = fold_left (fun acc i => f acc (g i)) (seq 0 k) b.
Proof. generalize 0%nat. revert b. induction k; intros b s; simpl; auto. Qed.

End ListFacts.

(** ** The density model, pointwise *)

Section Density.

Context {T : Type} `{Backend T}.
Local Open Scope backend_scope.

Lemma fold_rho_step (h : list T) (terms : list (T * T * T)) (retval : list T) :
  length retval = length h ->
  fold_left (rho_step h) terms retval =
  map (fun rh => fold_left (fun acc abg => acc + rho_term abg (snd rh)) terms (fst rh))
      (combine retval h).
Proof.
  revert retval. induction terms as [ | [[alpha beta] gamma] terms IH ]; intros retval Hl.
  - simpl. now rewrite <- (map_fst_combine retval h Hl) at 1.
  - simpl fold_left at 1. rewrite IH.
    + unfold rho_step. rewrite combine_map_fst, map_map.
      apply map_ext. intros [r hj]. reflexivity.
    + unfold rho_step. rewrite length_map, length_combine. lia.
Qed.

(** The array loop of [rho_approximation] computes, at every altitude, the
    running sum of the terms in their order in [params]. *)
Lemma rho_approximation_terms (h params : list T) :
  rho_approximation h params =
  let n := (length params / 3)%nat in
  map (fun hj =>
         fold_left (fun acc abg => acc + rho_term abg hj)
                   (zip3 (slice params 0 n) (slice params n (2 * n))
                         (slice params (2 * n) (3 * n)))
                   (b_const 0)) h.
Proof.
  unfold rho_approximation. cbv zeta.
  rewrite fold_rho_step by apply repeat_length.
  rewrite combine_repeat_l, map_map. reflexivity.
Qed.

Lemma rho_approximation_length (h params : list T) :
  length (rho_approximation h params) = length h.
Proof. rewrite rho_approximation_terms. cbv zeta. apply length_map. Qed.

Lemma zip3_params (k : nat) (params : list T) (d : T) :
  length params = (3 * k)%nat ->
  zip3 (slice params 0 k) (slice params k (2 * k)) (slice params (2 * k) (3 * k)) =
  map (fun i => (nth i params d, nth (k + i) params d, nth (2 * k + i) params d))
      (seq 0 k).
Proof.
  intros Hl.
  assert (Ha : length (slice params 0 k) = k) by (rewrite slice_length; lia).
  assert (Hb : length (slice params k (2 * k)) = k) by (rewrite slice_length; lia).
  assert (Hc : length (slice params (2 * k) (3 * k)) = k) by (rewrite slice_length; lia).
  set (f := fun i => (nth i params d, nth (k + i) params d, nth (2 * k + i) params d)).
  apply (nth_ext _ _ (d, d, d) (f 0%nat)).
  - rewrite length_map, length_seq. now apply zip3_length.
  - intros i Hi. rewrite (zip3_length _ _ _ _ Ha Hb Hc) in Hi.
    rewrite zip3_nth by lia.
    rewrite !slice_nth by lia.
    rewrite (map_nth f), seq_nth by assumption. reflexivity.
Qed.

(** With [len(params) = 3k], the value at every altitude is the running sum
    over [i = 0 .. k-1] of [alpha_i * exp(-(h - gamma_i) * beta_i)], the
    three blocks read at [i], [k + i] and [2k + i]. *)
Lemma rho_approximation_blocks (k : nat) (h params : list T) (d : T) :
  length params = (3 * k)%nat ->
  rho_approximation h params =
  map (fun hj =>
         fold_left (fun acc i =>
                      acc + nth i params d
                            * b_exp (- (hj - nth (2 * k + i) params d) * nth (k + i) params d))
                   (seq 0 k) (b_const 0)) h.
Proof.
  intros Hl. rewrite rho_approximation_terms. cbv zeta.
  replace (length params / 3)%nat with k
    by (rewrite Hl, Nat.mul_comm; symmetry; apply Nat.div_mul; discriminate).
  rewrite (zip3_params k params d Hl).
  apply map_ext. intros hj. now rewrite fold_left_map_seq.
Qed.

End Density.

(** ** The density model and the objective over the reals *)

Section ListIndex.

Context {A B : Type}.

Lemma nth_map_in (f : A -> B) (l : list A) (i : nat) (d : A) (d' : B) :
  (i < length l)%nat -> nth i (map f l) d' = f (nth i l d).
Proof.
  revert i. induction l as [ | x l IH ]; intros [ | i ] Hi; simpl in *; try lia.
  - reflexivity.
  - apply IH. lia.
Qed.

Lemma map_seq_nth (l : list A) (d : A) :
  l = map (fun i => nth i l d) (seq 0 (length l)).
Proof.
  apply (nth_ext _ _ d (nth 0 l d)).
  - now rewrite length_map, length_seq.
  - intros i Hi.
    rewrite (map_nth (fun i => nth i l d)), seq_nth by assumption.
    reflexivity.
Qed.

End ListIndex.

Module RealDensity.

Import RealBackend RealSpec.
Local Open Scope R_scope.

Lemma fold_left_seq_sum (f : nat -> R) (k : nat) :
  fold_left (fun acc i => acc + f i) (seq 0 (S k)) 0 = sum_f_R0 f k.
Proof.
  induction k as [ | k IH ].
  - simpl. lra.
  - rewrite seq_S, fold_left_app, IH. reflexivity.
Qed.

Lemma np_sum_sum (l : list R) :
  l <> [] -> np_sum l = sum_f_R0 (fun i => nth i l 0) (length l - 1).
Proof.
  intros Hne. unfold np_sum.
  rewrite (map_seq_nth l 0) at 1.
  rewrite fold_left_map_seq.
  destruct l as [ | x l ]; [ congruence | ].
  cbn [length]. rewrite Nat.sub_succ, Nat.sub_0_r.
  apply (fold_left_seq_sum (fun i => nth i (x :: l) 0)).
Qed.

Lemma rho_approximation_model (k : nat) (h params : list R) :
  length params = (3 * k)%nat ->
  rho_approximation h params = map (rho_model k params) h.
Proof.
  intros Hl. rewrite (rho_approximation_blocks k h params 0 Hl).
  apply map_ext. intros hj. unfold rho_model.
  destruct k as [ | k ].
  - destruct params; [ | discriminate ]. simpl. lra.
  - rewrite Nat.sub_succ, Nat.sub_0_r.
    apply (fold_left_seq_sum
             (fun i => nth i params 0
                       * exp (- (hj - nth (2 * S k + i) params 0) * nth (S k + i) params 0))).
Qed.

Lemma broadcast2_same_length (f : R -> R -> R) (a b : list R) :
  length a = length b ->
  broadcast2 f a b = Ok (map (fun ab => f (fst ab) (snd ab)) (combine a b)).
Proof. intros Hl. unfold broadcast2. now rewrite Hl, Nat.eqb_refl. Qed.

(** C3: with [params] of length [3k] ([k >= 1]) read as the blocks alphas,
    betas, gammas, [rho_approximation h params] has the length of [h], its
    value at every altitude is the sum over [i] of
    [alpha_i * exp(-(h - gamma_i) * beta_i)], and an empty [h] gives an
    empty result. *)
Theorem C3_rho_approximation_sum_of_exponentials (k : nat) (params h : list R) :
  (1 <= k)%nat -> length params = (3 * k)%nat ->
  length (rho_approximation h params) = length h /\
  (forall j, (j < length h)%nat ->
             nth j (rho_approximation h params) 0 = rho_model k params (nth j h 0)) /\
  (h = [] -> rho_approximation h params = []).
Proof.
  intros _ Hl. split; [ apply rho_approximation_length | split ].
  - intros j Hj. rewrite (rho_approximation_model k h params Hl).
    now apply nth_map_in.
  - intros ->. rewrite (rho_approximation_model k [] params Hl). reflexivity.
Qed.

Lemma C3_witness :
  nth 0 (rho_approximation [5] [1; 0; 0]) 0 = rho_model 1 [1; 0; 0] 5.
Proof.
  refine (proj1 (proj2 (C3_rho_approximation_sum_of_exponentials
                          1 [1; 0; 0] [5] _ _)) 0%nat _);
    simpl; lia.
Defined.

(** C1: on a dataset whose [X] and [Y] have the same, non-zero length and a
    parameter vector of length [3k], [fitness] returns the one-element list
    holding the mean over [i] of
    [|log10(Y[i]) - log10(rho(X[i]))|], with [rho] the sum of exponentials
    the parameters denote. *)
Theorem C1_fitness_log_mae (self : global_fit_udp R) (x : list R) (k : nat) :
  length (X self) = length (Y self) -> X self <> [] ->
  length x = (3 * k)%nat ->
  fitness self x =
  Ok [log_mae (length (X self))
              (fun i => nth i (Y self) 0)
              (fun i => rho_model k x (nth i (X self) 0))].
Proof.
  intros HXY Hne Hl. unfold fitness. cbv zeta.
  rewrite (rho_approximation_model k (X self) x Hl).
  rewrite broadcast2_same_length by (now rewrite !length_map).
  cbn [bind]. do 2 f_equal.
  set (d := map b_abs _).
  assert (Hd : length d = length (X self)).
  { unfold d. rewrite !length_map, length_combine, !length_map. lia. }
  assert (Hdne : d <> []).
  { intros E. rewrite E in Hd. destruct (X self); [ congruence | discriminate ]. }
  unfold np_mean, log_mae. rewrite (np_sum_sum d Hdne), Hd.
  cbn [b_div b_const real_backend]. rewrite <- INR_IZR_INZ.
  f_equal. apply sum_eq. intros i Hi.
  assert (Hi' : (i < length (X self))%nat).
  { destruct (X self); [ congruence | simpl in *; lia ]. }
  unfold d.
  rewrite (nth_map_in b_abs _ _ 0) by (rewrite length_map, length_combine, !length_map; lia).
  rewrite (nth_map_in _ _ _ (0, 0))
    by (rewrite length_combine, !length_map; lia).
  rewrite combine_nth by (now rewrite !length_map).
  cbn [fst snd].
  rewrite (nth_map_in b_log10 _ _ 0) by lia.
  rewrite (nth_map_in b_log10 _ _ 0) by (rewrite length_map; lia).
  rewrite (nth_map_in (rho_model k x) _ _ 0) by lia.
  reflexivity.
Qed.

Lemma C1_witness :
  fitness {| X := [5]; Y := [1]; n := 1 |} [1; 0; 0] =
  Ok [log_mae 1 (fun i => nth i [1] 0)
              (fun i => rho_model 1 [1; 0; 0] (nth i [5] 0))].
Proof.
  apply (C1_fitness_log_mae {| X := [5]; Y := [1]; n := 1 |} [1; 0; 0] 1);
    simpl; [ reflexivity | discriminate | reflexivity ].
Defined.

End RealDensity.

(** ** The bounds of the fit problem *)

Section Bounds.

Context {T : Type} `{Backend T}.

Lemma list_mul_singleton {A : Type} (a : A) (k : Z) :
  list_mul [a] k = repeat a (Z.to_nat k).
Proof.
  unfold list_mul. induction (Z.to_nat k) as [ | m IH ]; simpl; [ reflexivity | ].
  now rewrite IH.
Qed.

Lemma list_mul_repeat_3 {A : Type} (a : A) (m : nat) :
  list_mul (repeat a m) 3 = repeat a (3 * m).
Proof.
  unfold list_mul. change (Z.to_nat 3) with 3%nat. simpl concat.
  rewrite app_nil_r, <- !repeat_app. f_equal. lia.
Qed.

Lemma firstn_repeat_le {A : Type} (a : A) (i m : nat) :
  (i <= m)%nat -> firstn i (repeat a m) = repeat a i.
Proof.
  revert m. induction i as [ | i IH ]; intros [ | m ] Hle; simpl; try reflexivity; try lia.
  f_equal. apply IH. lia.
Qed.

(** C4: for a problem with term count [n] (not negative), [get_bounds]
    returns two lists of length [3n]: the lower one all [0], the upper one
    [0.1] in its first [2n] places and [100] in its last [n]. *)
Theorem C4_get_bounds_shape (self : global_fit_udp T) :
  (0 <= n self)%Z ->
  let k := Z.to_nat (n self) in
  get_bounds self =
    (repeat (Int 0) (3 * k), repeat (Float 1e-1) (2 * k) ++ repeat (Int 100) k) /\
  length (fst (get_bounds self)) = (3 * k)%nat /\
  length (snd (get_bounds self)) = (3 * k)%nat.
Proof.
  intros Hn k.
  assert (E : get_bounds self =
              (repeat (Int 0) (3 * k), repeat (Float 1e-1) (2 * k) ++ repeat (Int 100) k)).
  { unfold get_bounds. cbv zeta.
    rewrite !list_mul_singleton, !list_mul_repeat_3. fold k.
    unfold set_slice_from, norm_index. rewrite repeat_length.
    destruct (Z.ltb_spec (n self * 2) 0) as [Hneg | _]; [ lia | ].
    replace (Nat.min (Z.to_nat (n self * 2)) (3 * k)) with (2 * k)%nat by (unfold k; lia).
    rewrite firstn_repeat_le by lia. reflexivity. }
  rewrite E. cbn [fst snd].
  rewrite length_app, !repeat_length. repeat split; lia.
Qed.

End Bounds.

Lemma C4_witness :
  get_bounds {| X := @nil R; Y := []; n := 4 |} =
    (repeat (Int 0) 12, repeat (Float 1e-1) 8 ++ repeat (Int 100) 4).
Proof.
  refine (proj1 (C4_get_bounds_shape {| X := @nil R; Y := []; n := 4 |} _)).
  simpl. lia.
Defined.

(** ** Parameter vectors whose length is not a multiple of three *)

Section Trailing.

Context {T : Type} `{Backend T}.

Lemma slice_firstn {A : Type} (l : list A) (a b m : nat) :
  (b <= m)%nat -> slice (firstn m l) a b = slice l a b.
Proof.
  intros Hb. unfold slice.
  rewrite skipn_firstn_comm, firstn_firstn.
  destruct (Nat.le_gt_cases a b) as [Hab | Hab].
  - f_equal. lia.
  - replace (b - a)%nat with 0%nat by lia. now rewrite Nat.min_0_l.
Qed.

Lemma div3_bound (m : nat) : (3 * (m / 3) <= m)%nat.
Proof. apply Nat.Div0.mul_div_le. Qed.

Lemma length_firstn_div3 {A : Type} (l : list A) :
  length (firstn (3 * (length l / 3)) l) = (3 * (length l / 3))%nat.
Proof. rewrite length_firstn. pose proof (div3_bound (length l)). lia. Qed.

(** [rho_approximation] reads [len(params) // 3] terms and never looks at
    the entries past the third block. *)
Lemma rho_approximation_firstn (h params : list T) :
  rho_approximation h params =
  rho_approximation h (firstn (3 * (length params / 3)) params).
Proof.
  rewrite !rho_approximation_terms. cbv zeta.
  rewrite length_firstn_div3.
  replace (3 * (length params / 3) / 3)%nat with (length params / 3)%nat
    by (rewrite Nat.mul_comm, Nat.div_mul; [ reflexivity | discriminate ]).
  rewrite !slice_firstn by lia. reflexivity.
Qed.

(** C5, as the code has it: there is no check of the length of [params].
    Whatever the length, [rho_approximation] returns an array of the length
    of [h], equal to its value on the first [3 * (len(params) // 3)] entries
    of [params]; [fitness] agrees with its value on those entries, and
    returns normally on a dataset whose [X] and [Y] have the same length. *)
Theorem C5_trailing_params_ignored (self : global_fit_udp T) (h x : list T) :
  length (rho_approximation h x) = length h /\
  rho_approximation h x = rho_approximation h (firstn (3 * (length x / 3)) x) /\
  fitness self x = fitness self (firstn (3 * (length x / 3)) x) /\
  (length (X self) = length (Y self) -> is_ok (fitness self x) = true).
Proof.
  split; [ apply rho_approximation_length | ].
  split; [ apply rho_approximation_firstn | ].
  split.
  - unfold fitness. cbv zeta. now rewrite <- rho_approximation_firstn.
  - intros HXY. unfold fitness, broadcast2. cbv zeta.
    rewrite !length_map, rho_approximation_length, HXY, Nat.eqb_refl.
    reflexivity.
Qed.

End Trailing.

(** ** [cart2geo]: the loop and the unbound altitude *)

Section Cart2Geo.

Context {T : Type} `{Backend T}.

Lemma iter_body_bound (z p e2 R_eq : T) (st : geo_locals T) (k : nat) :
  exists h, loc_h (Nat.iter (S k) (cart2geo_body z p e2 R_eq) st) = Some h.
Proof. simpl. eexists. reflexivity. Qed.

(** C10: with [iters = 0] the loop body never runs, [h] is unbound at the
    [return], and the call raises; the call returns a value exactly when
    [iters >= 1]. *)
Theorem C10_cart2geo_needs_one_iteration (x y z e2 R_eq : T) (iters : Z) :
  cart2geo x y z e2 R_eq 0 = Raise UnboundLocalError /\
  (is_ok (cart2geo x y z e2 R_eq iters) = true <-> (1 <= iters)%Z).
Proof.
  split; [ reflexivity | ].
  unfold cart2geo. cbv zeta.
  destruct (Z.to_nat iters) as [ | k ] eqn:Ek.
  - simpl. split; [ discriminate | lia ].
  - destruct (iter_body_bound z (b_sqrt (b_add (b_sqr x) (b_sqr y))) e2 R_eq
                {| loc_h := None;
                   loc_phi := b_atan (b_div (b_div z (b_sqrt (b_add (b_sqr x) (b_sqr y))))
                                            (b_sub (b_const 1) e2)) |} k) as [h Hh].
    rewrite Hh. simpl. split; [ lia | reflexivity ].
Qed.

End Cart2Geo.

Module RealGeo.

Import RealBackend RealSpec.
Local Open Scope R_scope.

Lemma div_div (a b c : R) : a / b / c = a / (b * c).
Proof. unfold Rdiv. rewrite Rinv_mult. ring. Qed.

Lemma body_refine (z p e2 R_eq : R) (st : geo_locals R) :
  cart2geo_body z p e2 R_eq st =
  {| loc_h := Some (fst (spec_refine z p e2 R_eq (loc_phi st)));
     loc_phi := snd (spec_refine z p e2 R_eq (loc_phi st)) |}.
Proof.
  unfold cart2geo_body, spec_refine. cbv zeta.
  cbn [b_div b_sub b_mul b_add b_const b_sqr b_sqrt b_sin b_cos b_atan real_backend fst snd].
  rewrite div_div, Rsqr_pow2. reflexivity.
Qed.

Lemma iter_body_phi (z p e2 R_eq : R) (st : geo_locals R) (k : nat) :
  loc_phi (Nat.iter k (cart2geo_body z p e2 R_eq) st) =
  Nat.iter k (fun phi => snd (spec_refine z p e2 R_eq phi)) (loc_phi st).
Proof.
  induction k as [ | k IH ]; [ reflexivity | ].
  rewrite !Nat.iter_succ, body_refine. cbn [loc_phi]. now rewrite IH.
Qed.

(** C2, for [k >= 1]: [cart2geo] returns the longitude [atan2(y, x)], and,
    with [p = sqrt(x^2 + y^2)] and the initial latitude
    [atan(z / (p * (1 - e2)))], the altitude and latitude that the [k]-th
    refinement step produces; the number of steps is [k] for every input. *)
Theorem C2_cart2geo_fixed_iterations (x y z e2 R_eq : R) (k : Z) :
  (1 <= k)%Z ->
  let p := spec_p x y in
  let last := spec_refine z p e2 R_eq (spec_phi z p e2 R_eq (Z.to_nat (k - 1))) in
  cart2geo x y z e2 R_eq k = Ok (fst last, snd last, atan2 y x).
Proof.
  intros Hk p last. unfold cart2geo. cbv zeta.
  replace (Z.to_nat k) with (S (Z.to_nat (k - 1))) by lia.
  rewrite Nat.iter_succ, body_refine. cbn [loc_h loc_phi].
  rewrite iter_body_phi. cbn [loc_phi].
  cbn [b_div b_sub b_mul b_add b_const b_sqr b_sqrt b_atan b_atan2 real_backend].
  rewrite div_div, !Rsqr_pow2. reflexivity.
Qed.

Lemma C2_witness :
  cart2geo 3 4 1 0 1 4 =
  Ok (fst (spec_refine 1 (spec_p 3 4) 0 1 (spec_phi 1 (spec_p 3 4) 0 1 3)),
      snd (spec_refine 1 (spec_p 3 4) 0 1 (spec_phi 1 (spec_p 3 4) 0 1 3)),
      atan2 4 3).
Proof. apply (C2_cart2geo_fixed_iterations 3 4 1 0 1 4). lia. Defined.

(** C2 as stated fails at [k = 0]: no tuple is returned. *)
Lemma C2_counterexample :
  cart2geo 3 4 1 0 1 0 = Raise UnboundLocalError /\
  forall r : R * R * R, cart2geo 3 4 1 0 1 0 <> Ok r.
Proof. split; [ reflexivity | intros r; discriminate ]. Qed.

End RealGeo.

Module RealFit.

Import RealBackend.
Local Open Scope R_scope.

(** C5 as stated fails: a parameter vector of length four is accepted, and
    its last entry is never read. *)
Lemma C5_counterexample :
  (length [1; 0; 0; 7] mod 3 <> 0)%nat /\
  is_ok (fitness {| X := [5]; Y := [1]; n := 1 |} [1; 0; 0; 7]) = true /\
  rho_approximation [5] [1; 0; 0; 7] = rho_approximation [5] [1; 0; 0].
Proof. repeat split. simpl. discriminate. Qed.

End RealFit.

(** ** IEEE 754 special values: facts on the specification floats *)

Module SpecFacts.

Import SpecClass.

Lemma div_zero_l (s : bool) (c : spec_float) :
  sf_zero_or_nan (SF64div (S754_zero s) c) = true.
Proof. destruct c; reflexivity. Qed.

Lemma div_zero_or_nan_r (a d : spec_float) :
  sf_zero_or_nan d = true -> sf_inf_or_nan (SF64div a d) = true.
Proof. destruct d; try discriminate; destruct a; reflexivity. Qed.

Lemma div_inf_or_nan_l (a c : spec_float) :
  sf_inf_or_nan a = true -> sf_inf_or_nan (SF64div a c) = true.
Proof. destruct a; try discriminate; destruct c; reflexivity. Qed.

Lemma sub_inf_or_nan_r (c t : spec_float) :
  sf_inf_or_nan t = true -> sf_inf_or_nan (SF64sub c t) = true.
Proof.
  destruct t as [ | st | | ]; try discriminate; destruct c as [ | sc | | ];
    try reflexivity.
  destruct sc, st; reflexivity.
Qed.

Lemma div_inf_or_nan (a b : spec_float) :
  sf_inf_or_nan a = true -> sf_inf_or_nan b = true -> SF64div a b = S754_nan.
Proof. destruct a; try discriminate; destruct b; try discriminate; reflexivity. Qed.

Lemma add_opp_finite (s : bool) (m : positive) (e : Z) :
  SF64add (S754_finite s m e) (S754_finite (negb s) m e) = S754_zero false.
Proof.
  unfold SF64add, SFadd.
  set (v := fst (shl_align m e (Z.min e e))).
  replace (cond_Zopp s (Z.pos v) + cond_Zopp (negb s) (Z.pos v))%Z with 0%Z
    by (destruct s; unfold cond_Zopp, negb;
        [ symmetry; apply Z.add_opp_diag_l | symmetry; apply Z.add_opp_diag_r ]).
  reflexivity.
Qed.

(** [N + (a - N)] with [a] a zero or a NaN: the sum cancels to a zero, or is
    a NaN. *)
Lemma add_sub_cancel (a N : spec_float) :
  sf_zero_or_nan a = true -> sf_zero_or_nan (SF64add N (SF64sub a N)) = true.
Proof.
  destruct a as [ sa | | | ]; try discriminate; intros _.
  - destruct N as [ sn | sn | | sn m e ].
    + destruct sa, sn; reflexivity.
    + destruct sn; reflexivity.
    + reflexivity.
    + change (SF64sub (S754_zero sa) (S754_finite sn m e))
        with (S754_finite (negb sn) m e).
      now rewrite add_opp_finite.
  - destruct N; reflexivity.
Qed.

Lemma sub_neg_inf (l : spec_float) :
  sf_above_neg_inf l = true -> SF64sub l (S754_infinity true) = S754_infinity false.
Proof. destruct l as [ | [ | ] | | ]; try discriminate; reflexivity. Qed.

Lemma sub_zero_finite (a : spec_float) :
  sf_is_finite a = true -> sf_is_finite (SF64sub a (S754_zero false)) = true.
Proof. destruct a as [ [ | ] | | | ]; try discriminate; reflexivity. Qed.

Lemma opp_finite (a : spec_float) :
  sf_is_finite a = true -> sf_is_finite (SFopp a) = true.
Proof. destruct a; try discriminate; reflexivity. Qed.

Lemma mul_finite_zero (a : spec_float) :
  sf_is_finite a = true ->
  exists s, SF64mul a (S754_zero false) = S754_zero s.
Proof. destruct a; try discriminate; intros _; eexists; reflexivity. Qed.

End SpecFacts.

(** ** Binary64 arithmetic at the special values *)

Module FloatFacts.

Import SpecClass SpecFacts FloatBackend.

Lemma prim_nan (x : float) : Prim2SF x = S754_nan -> x = nan.
Proof. intros E. apply Prim2SF_inj. now rewrite E. Qed.

Lemma prim_is_nan (x : float) : sf_is_nan (Prim2SF x) = true -> x = nan.
Proof. intros E. apply prim_nan. destruct (Prim2SF x); try discriminate. reflexivity. Qed.

Lemma prim_infinity (x : float) : Prim2SF x = S754_infinity false -> x = infinity.
Proof. intros E. apply Prim2SF_inj. now rewrite E. Qed.

Lemma prim_zero (x : float) : Prim2SF x = S754_zero false -> x = zero.
Proof. intros E. apply Prim2SF_inj. now rewrite E. Qed.

(** [x == 0] holds of the two zeros only. *)
Lemma is_zero_cases (x : float) :
  PrimFloat.is_zero x = true -> x = zero \/ x = neg_zero.
Proof.
  unfold PrimFloat.is_zero. rewrite FloatAxioms.eqb_spec.
  change (Prim2SF zero) with (S754_zero false).
  destruct (Prim2SF x) as [ [ | ] | [ | ] | | [ | ] m e ] eqn:E; try discriminate; intros _.
  - right. apply Prim2SF_inj. now rewrite E.
  - left. now apply prim_zero.
Qed.

(** *** Counts as floats *)

Lemma digits2_pos_iter_xO (p k : positive) :
  digits2_pos (Pos.iter xO p k) = (digits2_pos p + k)%positive.
Proof.
  induction k as [ | k IH ] using Pos.peano_ind.
  - simpl. now rewrite Pos.add_1_r.
  - rewrite Pos.iter_succ. cbn [digits2_pos]. rewrite IH. lia.
Qed.

Lemma digits2_pos_size (p : positive) : digits2_pos p = Pos.size p.
Proof. induction p; simpl; congruence. Qed.

Lemma digits2_pos_bound (p : positive) :
  (Z.pos p < 2 ^ 53)%Z -> (Z.pos (digits2_pos p) <= 53)%Z.
Proof.
  intros Hp. rewrite digits2_pos_size.
  pose proof (Pos.size_le p) as Hle.
  destruct (Z.le_gt_cases (Z.pos (Pos.size p)) 53) as [ | Hgt ]; [ assumption | exfalso ].
  assert (H54 : (2 ^ 54 <= 2 ^ Z.pos (Pos.size p))%Z)
    by (apply Z.pow_le_mono_r; lia).
  assert (Hz : (2 ^ Z.pos (Pos.size p) <= Z.pos p~0)%Z).
  { rewrite <- Pos2Z.inj_pow. apply Pos2Z.pos_le_pos. exact Hle. }
  change (2 ^ 54)%Z with (2 * 2 ^ 53)%Z in H54. lia.
Qed.

(** A mantissa of 53 digits with an exponent in range is kept as it is. *)
Lemma binary_round_aux_exact (sx : bool) (m : positive) (e : Z) :
  Z.pos (digits2_pos m) = 53%Z -> (-1074 <= e <= 971)%Z ->
  binary_round_aux prec emax sx (Z.pos m) e loc_Exact = S754_finite sx m e.
Proof.
  intros Hd He.
  assert (Hshr : shr_fexp prec emax (Z.pos m) e loc_Exact =
                 ({| shr_m := Z.pos m; shr_r := false; shr_s := false |}, e)).
  { unfold shr_fexp, Zdigits2. rewrite Hd.
    unfold fexp, SpecFloat.emin, prec, emax.
    replace (Z.max (53 + e - 53) (3 - 1024 - 53) - e)%Z with 0%Z by lia.
    reflexivity. }
  unfold binary_round_aux. rewrite Hshr. cbn [shr_m loc_of_shr_record round_nearest_even].
  rewrite Hshr. cbn [shr_m].
  unfold emax, prec.
  destruct (Z.leb_spec e (1024 - 53)) as [ _ | Hgt ]; [ reflexivity | lia ].
Qed.

Lemma binary_normalize_small (p : positive) :
  (Z.pos p < 2 ^ 53)%Z ->
  exists m e, binary_normalize prec emax (Z.pos p) 0 false = S754_finite false m e /\
              valid_binary (S754_finite false m e) = true.
Proof.
  intros Hp. pose proof (digits2_pos_bound p Hp) as Hd.
  unfold binary_normalize, binary_round.
  unfold fexp, SpecFloat.emin. rewrite Z.add_0_r.
  change prec with 53%Z. change emax with 1024%Z.
  replace (Z.max (Z.pos (digits2_pos p) - 53) (3 - 1024 - 53))%Z
    with (Z.pos (digits2_pos p) - 53)%Z by lia.
  unfold shl_align. rewrite Z.sub_0_r.
  destruct (Z.pos (digits2_pos p) - 53)%Z as [ | q | q ] eqn:Eq; try lia.
  - exists p, 0%Z.
    change 53%Z with prec. change 1024%Z with emax.
    rewrite binary_round_aux_exact by lia. split; [ reflexivity | ].
    unfold SpecFloat.valid_binary, SpecFloat.bounded, SpecFloat.canonical_mantissa,
      SpecFloat.fexp, SpecFloat.emin, prec, emax.
    replace (Z.pos (digits2_pos p)) with 53%Z by lia. reflexivity.
  - exists (Pos.iter xO p q), (Z.neg q).
    assert (Hdq : Z.pos (digits2_pos (Pos.iter xO p q)) = 53%Z)
      by (rewrite digits2_pos_iter_xO; lia).
    change 53%Z with prec. change 1024%Z with emax.
    rewrite binary_round_aux_exact by lia. split; [ reflexivity | ].
    unfold SpecFloat.valid_binary, SpecFloat.bounded, SpecFloat.canonical_mantissa,
      SpecFloat.fexp, SpecFloat.emin, prec, emax.
    rewrite Hdq.
    apply andb_true_iff. split; [ apply Z.eqb_eq | apply Z.leb_le ]; lia.
Qed.

(** A count between [1] and [2^53] is a positive finite float. *)
Lemma float_of_Z_positive (z : Z) :
  (0 < z < 2 ^ 53)%Z ->
  exists m e, Prim2SF (float_of_Z z) = S754_finite false m e.
Proof.
  intros [Hz Hlt]. destruct z as [ | p | p ]; try lia.
  destruct (binary_normalize_small p Hlt) as (m & e & Hn & Hv).
  exists m, e. unfold float_of_Z. rewrite Hn. now apply Prim2SF_SF2Prim.
Qed.


(** *** The polar axis *)

Section Pole.

Variable L : libm.
Hypothesis Hcos : cos_nan L.
Hypothesis Hatan : atan_nan L.

Local Existing Instance float_backend.

(** With [p = 0], whatever the latitude before the pass, the argument of
    the arctangent is [(z / 0) / (1 - t / (N + (0 / c - N)))]: an infinity
    or NaN over an infinity or NaN. *)
Lemma body_pole_phi (z e2 R_eq : float) (st : geo_locals float) :
  loc_phi (cart2geo_body (H := float_backend L) z zero e2 R_eq st) = nan.
Proof.
  unfold cart2geo_body. cbv zeta. cbn [loc_phi].
  cbn [b_div b_sub b_mul b_add b_const b_sqr b_sqrt b_sin b_cos b_atan float_backend].
  transitivity (m_atan L nan); [ f_equal | exact Hatan ].
  apply prim_nan.
  rewrite div_spec, (div_spec z zero), sub_spec, div_spec, add_spec, sub_spec,
    (div_spec zero).
  change (Prim2SF zero) with (S754_zero false).
  apply div_inf_or_nan.
  - now apply div_zero_or_nan_r.
  - apply sub_inf_or_nan_r, div_zero_or_nan_r, add_sub_cancel, div_zero_l.
Qed.

(** A pass that starts from a NaN latitude leaves a NaN altitude and a NaN
    latitude. *)
Lemma body_nan (z p e2 R_eq : float) (st : geo_locals float) :
  loc_phi st = nan ->
  cart2geo_body (H := float_backend L) z p e2 R_eq st =
  {| loc_h := Some nan; loc_phi := nan |}.
Proof.
  intros Hphi. unfold cart2geo_body. cbv zeta. rewrite Hphi.
  cbn [b_div b_sub b_mul b_add b_const b_sqr b_sqrt b_sin b_cos b_atan float_backend].
  unfold cos_nan in Hcos. rewrite Hcos.
  set (N := (R_eq / _)%float).
  assert (Hh : (p / nan - N)%float = nan).
  { apply prim_nan. rewrite sub_spec, div_spec.
    change (Prim2SF nan) with S754_nan.
    destruct (Prim2SF p); reflexivity. }
  rewrite Hh. f_equal.
  transitivity (m_atan L nan); [ f_equal | exact Hatan ].
  apply prim_nan.
  rewrite (div_spec (z / p)), sub_spec, (div_spec (e2 * N)), add_spec.
  change (Prim2SF nan) with S754_nan.
  destruct (Prim2SF (z / p)), (Prim2SF (float_of_Z 1)), (Prim2SF (e2 * N)), (Prim2SF N);
    reflexivity.
Qed.

Lemma iter_pole (z e2 R_eq : float) (st : geo_locals float) (k : nat) :
  Nat.iter (S (S k)) (cart2geo_body (H := float_backend L) z zero e2 R_eq) st =
  {| loc_h := Some nan; loc_phi := nan |}.
Proof.
  induction k as [ | k IH ].
  - cbn [Nat.iter nat_rect]. apply body_nan, body_pole_phi.
  - rewrite Nat.iter_succ, IH. now apply body_nan.
Qed.

End Pole.

(** C7, as the code has it: at [x = 0], [y = 0] (of either sign) the
    horizontal distance [p] is [0]; with one pass or more [cart2geo] raises
    nothing and returns NaN for the latitude, for every [z], [e2] and
    [R_eq]; with two passes or more (the default is four) the altitude is
    NaN as well. After a single pass the altitude is [0 / cos(phi) - N] at
    the first guess [phi], which need not be a NaN or an infinity. *)
Theorem C7_pole_returns_nan (L : libm) (x y z e2 R_eq : float) (iters : Z) :
  pow2_zero L -> cos_nan L -> atan_nan L ->
  PrimFloat.is_zero x = true -> PrimFloat.is_zero y = true -> (1 <= iters)%Z ->
  exists h,
    cart2geo (H := float_backend L) x y z e2 R_eq iters =
    Ok (h, nan, m_atan2 L y x) /\
    ((2 <= iters)%Z -> h = nan).
Proof.
  intros [Hp0 Hp1] Hcos Hatan Hx Hy Hit. unfold cart2geo. cbv zeta.
  cbn [b_add b_sqr b_sqrt b_atan2 float_backend].
  assert (Hxx : m_pow2 L x = zero)
    by (destruct (is_zero_cases x Hx) as [-> | ->]; assumption).
  assert (Hyy : m_pow2 L y = zero)
    by (destruct (is_zero_cases y Hy) as [-> | ->]; assumption).
  rewrite Hxx, Hyy.
  change (PrimFloat.sqrt (zero + zero)) with zero.
  destruct (Z_lt_le_dec iters 2) as [Hone | Htwo].
  - (* a single pass *)
    replace (Z.to_nat iters) with 1%nat by lia.
    cbn [Nat.iter nat_rect].
    rewrite (body_pole_phi L Hatan).
    unfold cart2geo_body. cbv zeta. cbn [loc_h].
    eexists. split; [ reflexivity | lia ].
  - exists nan. split; [ | reflexivity ].
    replace (Z.to_nat iters) with (S (S (Z.to_nat (iters - 2)))) by lia.
    rewrite (iter_pole L Hcos Hatan). reflexivity.
Qed.

(** *** The objective at the all-zero parameter vector *)

Lemma map_constant {A B : Type} (f : A -> B) (c : B) (l : list A) :
  (forall x, In x l -> f x = c) -> map f l = repeat c (length l).
Proof.
  induction l as [ | x l IH ]; intros Hf; simpl; [ reflexivity | ].
  rewrite (Hf x) by now left. f_equal. apply IH. intros y Hy. apply Hf. now right.
Qed.

Lemma zip3_In {A : Type} (la lb lc : list A) (a b c : A) :
  In (a, b, c) (zip3 la lb lc) -> In a la /\ In b lb /\ In c lc.
Proof.
  revert lb lc. induction la as [ | x la IH ]; intros [ | y lb ] [ | w lc ] Hin;
    simpl in Hin; try contradiction.
  destruct Hin as [E | Hin].
  - inversion E; subst. repeat split; now left.
  - destruct (IH _ _ Hin) as (Ha & Hb & Hc). repeat split; now right.
Qed.

Lemma slice_In {A : Type} (l : list A) (a b : nat) (x : A) :
  In x (slice l a b) -> In x l.
Proof.
  unfold slice. intros Hin.
  rewrite <- (firstn_skipn a l). apply in_or_app. right.
  rewrite <- (firstn_skipn (b - a) (skipn a l)). apply in_or_app. now left.
Qed.

Section ZeroParams.

Variable L : libm.
Hypothesis Hexp : exp_zero L.
Hypothesis Hlog0 : log10_zero L.
Hypothesis Hlog : log10_positive L.

(** At a finite altitude the all-zero term is [0 * exp(+-0) = 0 * 1]. *)
Lemma zero_term (acc hj : float) :
  acc = zero -> is_finite hj = true ->
  b_add (Backend := float_backend L) acc
        (rho_term (H := float_backend L) (zero, zero, zero) hj) = zero.
Proof.
  intros -> Hfin. unfold rho_term.
  cbn [b_add b_sub b_mul b_neg b_exp float_backend].
  assert (Harg : ((- (hj - zero)) * zero)%float = zero \/
                 ((- (hj - zero)) * zero)%float = neg_zero).
  { destruct (mul_finite_zero (SFopp (SF64sub (Prim2SF hj) (S754_zero false))))
      as [s Hs].
    - apply opp_finite, sub_zero_finite. exact Hfin.
    - destruct s; [ right | left ]; apply Prim2SF_inj;
        rewrite mul_spec, opp_spec, sub_spec; exact Hs. }
  destruct Hexp as [He0 He1].
  destruct Harg as [-> | ->]; rewrite ?He0, ?He1; reflexivity.
Qed.

Lemma zero_terms (terms : list (float * float * float)) (hj : float) :
  (forall t, In t terms -> t = (zero, zero, zero)) -> is_finite hj = true ->
  fold_left (fun acc abg => b_add (Backend := float_backend L) acc
                                  (rho_term (H := float_backend L) abg hj))
            terms zero = zero.
Proof.
  intros Hall Hfin. induction terms as [ | t terms IH ]; [ reflexivity | ].
  cbn [fold_left]. rewrite (Hall t) by now left.
  rewrite zero_term by auto. apply IH. intros u Hu. apply Hall. now right.
Qed.

(** The prediction of the all-zero parameters is [0] at every finite
    altitude. *)
Lemma rho_approximation_zero (h : list float) (len : nat) :
  Forall (fun hj => is_finite hj = true) h ->
  rho_approximation (H := float_backend L) h (repeat zero len) =
  repeat zero (length h).
Proof.
  intros Hfin. rewrite rho_approximation_terms. cbv zeta.
  apply map_constant. intros hj Hj.
  change (b_const (Backend := float_backend L) 0) with zero.
  apply zero_terms.
  - intros [[a b] c] Hin. apply zip3_In in Hin. destruct Hin as (Ha & Hb & Hc).
    apply slice_In, repeat_spec in Ha, Hb, Hc. now subst.
  - rewrite Forall_forall in Hfin. now apply Hfin.
Qed.

Lemma sum_infinity (m : nat) (acc : float) :
  acc = zero \/ acc = infinity ->
  fold_left PrimFloat.add (repeat infinity (S m)) acc = infinity.
Proof.
  revert acc. induction m as [ | m IH ]; intros acc [-> | ->]; try reflexivity.
  - change (repeat infinity (S (S m))) with (infinity :: repeat infinity (S m)).
    cbn [fold_left]. apply IH. now right.
  - change (repeat infinity (S (S m))) with (infinity :: repeat infinity (S m)).
    cbn [fold_left]. apply IH. now right.
Qed.

Lemma infinity_over_count (m : nat) :
  (Z.of_nat (S m) < 2 ^ 53)%Z ->
  (infinity / float_of_Z (Z.of_nat (S m)))%float = infinity.
Proof.
  intros Hm. destruct (float_of_Z_positive (Z.of_nat (S m))) as (mm & e & Hc); [ lia | ].
  apply prim_infinity. rewrite div_spec, Hc. reflexivity.
Qed.

Lemma positive_log10_gap (y : float) :
  (0 <? y)%float = true ->
  PrimFloat.abs (m_log10 L y - neg_infinity)%float = infinity.
Proof.
  intros Hy. apply prim_infinity.
  rewrite abs_spec, sub_spec.
  change (Prim2SF neg_infinity) with (S754_infinity true).
  now rewrite (sub_neg_inf _ (Hlog y Hy)).
Qed.

End ZeroParams.


(** C6: on a dataset with at least one altitude, finite altitudes and every
    [Y[i] > 0], [fitness] at an all-zero parameter vector raises nothing
    and returns plus infinity: the prediction is [0] everywhere and its
    [log10] is minus infinity. *)
Theorem C6_fitness_zero_params_is_infinite
        (L : libm) (self : global_fit_udp float) (len : nat) :
  exp_zero L -> log10_zero L -> log10_positive L ->
  X self <> [] -> length (X self) = length (Y self) ->
  (Z.of_nat (length (X self)) < 2 ^ 53)%Z ->
  Forall (fun h => is_finite h = true) (X self) ->
  Forall (fun y => (0 <? y)%float = true) (Y self) ->
  fitness (H := float_backend L) self (repeat zero len) = Ok [infinity].
Proof.
  intros Hexp Hlog0 Hlog Hne HXY Hcount Hfin Hpos.
  unfold fitness. cbv zeta.
  rewrite (rho_approximation_zero L Hexp) by assumption.
  rewrite map_repeat.
  cbn [b_log10 float_backend]. unfold log10_zero in Hlog0. rewrite Hlog0.
  unfold broadcast2. rewrite length_map, repeat_length, <- HXY, Nat.eqb_refl.
  cbn [bind]. do 2 f_equal.
  rewrite map_map.
  assert (Hd : map (fun ab : float * float =>
                      b_abs (Backend := float_backend L)
                            (b_sub (Backend := float_backend L) (fst ab) (snd ab)))
                   (combine (map (m_log10 L) (Y self))
                            (repeat neg_infinity (length (X self)))) =
               repeat infinity (length (X self))).
  { rewrite (map_constant _ infinity).
    - now rewrite length_combine, length_map, repeat_length, <- HXY, Nat.min_id.
    - intros [a b] Hin.
      pose proof (in_combine_l _ _ _ _ Hin) as Ha.
      pose proof (in_combine_r _ _ _ _ Hin) as Hb.
      apply repeat_spec in Hb. subst b.
      apply in_map_iff in Ha. destruct Ha as (y & <- & Hy).
      cbn [fst snd b_abs b_sub float_backend].
      apply (positive_log10_gap L Hlog).
      rewrite Forall_forall in Hpos. now apply Hpos. }
  rewrite Hd. unfold np_mean, np_sum. rewrite repeat_length.
  cbn [b_div b_add b_const float_backend].
  destruct (length (X self)) as [ | m ] eqn:Em.
  - destruct (X self); [ congruence | discriminate ].
  - change (float_of_Z 0) with zero.
    rewrite sum_infinity by now left.
    now apply infinity_over_count.
Qed.


End FloatFacts.

(** ** The reference elementary functions meet the conditions *)

Module RefLibmFacts.

Import SpecClass FloatBackend FloatFacts RefLibm.
Local Open Scope float_scope.

Lemma ref_pow2_zero : pow2_zero ref_libm.
Proof. split; reflexivity. Qed.

Lemma ref_cos_nan : cos_nan ref_libm.
Proof. reflexivity. Qed.

Lemma ref_atan_nan : atan_nan ref_libm.
Proof. reflexivity. Qed.

Lemma ref_exp_zero : exp_zero ref_libm.
Proof. split; reflexivity. Qed.

Lemma ref_log10_zero : log10_zero ref_libm.
Proof. reflexivity. Qed.

Lemma ref_log10_positive : log10_positive ref_libm.
Proof.
  intros y Hy. cbn [m_log10 ref_libm]. unfold log10.
  rewrite classify_spec. rewrite ltb_spec in Hy.
  change (Prim2SF 0) with (S754_zero false) in Hy.
  destruct (Prim2SF y) as [ s | [ | ] | | [ | ] m e ]; try discriminate.
  - reflexivity.
  - unfold SF64classify, SFclassify.
    assert (Hr : sf_above_neg_inf
                   (Prim2SF (if is_finite (log10_finite y) then log10_finite y else 0)) = true).
    { destruct (is_finite (log10_finite y)) eqn:Ef; [ | reflexivity ].
      unfold is_finite in Ef. destruct (Prim2SF (log10_finite y)); try discriminate; reflexivity. }
    destruct (Z.pos (digits2_pos m) =? prec)%Z; exact Hr.
Qed.

Lemma C6_witness :
  fitness (H := float_backend ref_libm)
          {| X := [100; 200]; Y := [1e-7; 1e-9]; n := 1 |} (repeat zero 3) =
  Ok [infinity].
Proof.
  apply (C6_fitness_zero_params_is_infinite
           ref_libm {| X := [100; 200]; Y := [1e-7; 1e-9]; n := 1 |} 3).
  - exact ref_exp_zero.
  - exact ref_log10_zero.
  - exact ref_log10_positive.
  - discriminate.
  - reflexivity.
  - simpl. lia.
  - repeat constructor.
  - repeat constructor.
Defined.


End RefLibmFacts.

(** ** The polar axis on the C99 instance *)

Module C99LibmFacts.

Import SpecClass FloatBackend FloatFacts C99Libm.
Local Open Scope float_scope.

Lemma c99_pow2_zero : pow2_zero c99_libm.
Proof. split; reflexivity. Qed.

Lemma c99_cos_nan : cos_nan c99_libm.
Proof. reflexivity. Qed.

Lemma c99_atan_nan : atan_nan c99_libm.
Proof. reflexivity. Qed.

Lemma C7_witness :
  exists h,
    cart2geo (H := float_backend c99_libm) 0 neg_zero 6400000
             (default_e2 c99_libm) a_earth 4 =
    Ok (h, nan, atan2 neg_zero 0) /\
    ((2 <= 4)%Z -> h = nan).
Proof.
  apply (C7_pole_returns_nan c99_libm 0 neg_zero 6400000 (default_e2 c99_libm) a_earth 4).
  - exact c99_pow2_zero.
  - exact c99_cos_nan.
  - exact c99_atan_nan.
  - reflexivity.
  - reflexivity.
  - lia.
Defined.

(** C7 as stated fails after a single pass: on the polar axis, with
    elementary functions that meet the three conditions, the altitude
    returned is a finite number. *)
Lemma C7_counterexample :
  pow2_zero c99_libm /\ cos_nan c99_libm /\ atan_nan c99_libm /\
  cart2geo (H := float_backend c99_libm) 0 0 6400000 (default_e2 c99_libm) a_earth 1 =
  Ok (-6399586.8592572985, nan, 0) /\
  is_finite (-6399586.8592572985) = true.
Proof.
  split; [ exact c99_pow2_zero | ].
  split; [ exact c99_cos_nan | ].
  split; [ exact c99_atan_nan | ].
  split; vm_compute; reflexivity.
Qed.

End C99LibmFacts.

(** ** The frame of the fit problem's methods *)

Module HeapFrame.

Import Heap.

Section Frame.

Context {T : Type} `{Backend T}.

Lemma list_set_last {A : Type} (l : list A) (x a : A) :
  list_set (l ++ [x]) (length l) a = l ++ [a].
Proof. induction l as [ | y l IH ]; simpl; [ reflexivity | now rewrite IH ]. Qed.

Lemma array_at_app (st ext : list (obj T)) (l : loc) :
  (l < length st)%nat -> array_at (st ++ ext) l = array_at st l.
Proof. intros Hl. unfold array_at. now rewrite nth_error_app1. Qed.

Lemma array_at_last (st : list (obj T)) (a : list T) :
  array_at (st ++ [NdArray a]) (length st) = a.
Proof.
  unfold array_at. rewrite nth_error_app2 by lia.
  now rewrite Nat.sub_diag.
Qed.

Lemma list_at_last (st : list (obj T)) (a : list num) :
  list_at (st ++ [PyList a]) (length st) = a.
Proof.
  unfold list_at. rewrite nth_error_app2 by lia.
  now rewrite Nat.sub_diag.
Qed.

(** The loop of [rho_approximation] on the heap: only the object
    [retval], the last one allocated, is written. *)
Lemma for_each_iadd (terms : list (T * T * T)) (h : loc) (s : state T)
      (st : list (obj T)) (rv : list T) :
  store s = st ++ [NdArray rv] -> (h < length st)%nat ->
  for_each terms (iadd_term h (length st)) s =
  (Ok tt, set_store s (st ++ [NdArray (fold_left (rho_step (array_at st h)) terms rv)])).
Proof.
  revert s rv. induction terms as [ | t terms IH ]; intros s rv Hs Hh.
  - cbn. rewrite <- Hs. now destruct s.
  - cbn [for_each fold_left]. unfold bindM at 1.
    unfold iadd_term, bindM, load, write. rewrite Hs.
    rewrite array_at_app by assumption. rewrite array_at_last.
    rewrite list_set_last.
    rewrite (IH _ (rho_step (array_at st h) rv t)); [ reflexivity | reflexivity | assumption ].
Qed.

Lemma rho_approximation_h_spec (h : loc) (params : list T) (s : state T) :
  (h < length (store s))%nat ->
  rho_approximation_h h params s =
  (Ok (length (store s)),
   set_store s (store s ++ [NdArray (rho_approximation (array_at (store s) h) params)])).
Proof.
  intros Hh. unfold rho_approximation_h. cbv zeta.
  unfold bindM at 1. unfold load at 1. unfold bindM at 1. unfold alloc.
  unfold bindM.
  rewrite (for_each_iadd _ h _ (store s) (repeat (b_const 0) (length (array_at (store s) h))))
    by (assumption || reflexivity).
  reflexivity.
Qed.

(** [fitness] on the heap returns what [fitness] returns on the dataset
    the attributes refer to, and allocates one array. *)
Lemma fitness_h_spec (x : list T) (s : state T) :
  (self_X s < length (store s))%nat -> (self_Y s < length (store s))%nat ->
  fitness_h x s =
  (fitness (view s) x,
   set_store s (store s ++ [NdArray (rho_approximation (X (view s)) x)])).
Proof.
  intros HX HY. unfold fitness_h.
  unfold bindM at 1. unfold get_X. unfold bindM at 1.
  rewrite rho_approximation_h_spec by assumption.
  unfold bindM, get_Y, load, lift, ret. cbn [store set_store self_Y].
  rewrite array_at_app by assumption. rewrite array_at_last.
  unfold fitness, view. cbn [X Y]. cbv zeta.
  destruct (broadcast2 _ _ _); reflexivity.
Qed.

Lemma get_bounds_h_spec (s : state T) :
  get_bounds_h s =
  (Ok (get_bounds (view s)),
   set_store s (store s ++ [PyList (fst (get_bounds (view s)));
                            PyList (snd (get_bounds (view s)))])).
Proof.
  unfold get_bounds_h, bindM, get_n, alloc, load_list, write, ret.
  cbn [store set_store self_n].
  rewrite length_app. cbn [length].
  replace (length (store s) + 1)%nat with (length (store s ++ [PyList
    (list_mul (list_mul [Int 0] (self_n s)) 3)])) by (rewrite length_app; reflexivity).
  rewrite list_at_last, list_set_last, list_at_last.
  rewrite <- app_assoc. cbn [app].
  unfold list_at. rewrite nth_error_app2 by lia. rewrite Nat.sub_diag. cbn [nth_error].
  unfold get_bounds, view. cbn [n fst snd]. reflexivity.
Qed.

Lemma extends_refl (s : state T) : extends s s.
Proof. repeat split. exists []. now rewrite app_nil_r. Qed.

Lemma extends_alloc (s0 s : state T) (ext : list (obj T)) :
  extends s0 s -> extends s0 (set_store s (store s ++ ext)).
Proof.
  intros (HX & HY & Hn & ext0 & Hst). repeat split; try assumption.
  exists (ext0 ++ ext). cbn [store set_store]. now rewrite Hst, app_assoc.
Qed.

Lemma extends_well_formed (s0 s : state T) :
  well_formed s0 -> extends s0 s -> well_formed s.
Proof.
  intros [HX HY] (EX & EY & _ & ext & Hst). unfold well_formed.
  rewrite EX, EY, Hst, length_app. lia.
Qed.

Lemma extends_dataset (s0 s : state T) :
  well_formed s0 -> extends s0 s -> view s = view s0.
Proof.
  intros [HX HY] (EX & EY & En & ext & Hst). unfold view.
  rewrite EX, EY, En, Hst, !array_at_app by assumption. reflexivity.
Qed.

Lemma fitness_h_extends (s0 s : state T) (x : list T) :
  well_formed s0 -> extends s0 s -> extends s0 (snd (fitness_h x s)).
Proof.
  intros Hwf Hext. destruct (extends_well_formed s0 s Hwf Hext) as [HX HY].
  rewrite fitness_h_spec by assumption. cbn [snd]. now apply extends_alloc.
Qed.

Lemma get_bounds_h_extends (s0 s : state T) :
  extends s0 s -> extends s0 (snd (get_bounds_h s)).
Proof. intros Hext. rewrite get_bounds_h_spec. cbn [snd]. now apply extends_alloc. Qed.

Lemma central_difference_from_only (step : T -> T) (I : state T -> Prop)
      (f : list T -> M T (list T)) (x : list T) (js : list nat) :
  (forall y s, I s -> I (snd (f y s))) ->
  forall s, I s -> I (snd (central_difference_from step f x js s)).
Proof.
  intros Hf. induction js as [ | j js IH ]; intros s Hs; [ exact Hs | ].
  cbn [central_difference_from]. unfold bindM at 1.
  assert (Hat : I (snd (central_difference_at step f x j s))).
  { unfold central_difference_at. cbv zeta. unfold bindM at 1.
    pose proof (Hf (set_nth x j (b_add (nth j x (b_const 0)) (step (nth j x (b_const 0)))))
                   s Hs) as H1.
    destruct (f _ s) as [[f_r | e] s1]; cbn [snd] in *; [ | exact H1 ].
    unfold bindM at 1.
    pose proof (Hf (set_nth x j (b_sub (nth j x (b_const 0)) (step (nth j x (b_const 0)))))
                   s1 H1) as H2.
    destruct (f _ s1) as [[f_l | e] s2]; cbn [snd] in *; [ | exact H2 ].
    destruct (Nat.eqb _ _); exact H2. }
  destruct (central_difference_at step f x j s) as [[g | e] s1]; cbn [snd] in *;
    [ | exact Hat ].
  unfold bindM. pose proof (IH s1 Hat) as Hrest.
  destruct (central_difference_from step f x js s1) as [[gs | e] s2]; exact Hrest.
Qed.

Lemma central_difference_only (step : T -> T) :
  calls_objective_only (central_difference step).
Proof.
  intros I f x Hf s Hs. unfold central_difference, bindM.
  pose proof (Hf x s Hs) as H0.
  destruct (f x s) as [[f0 | e] s1]; cbn [snd] in *; [ | exact H0 ].
  now apply central_difference_from_only.
Qed.

Lemma extends_keeps (s0 s : state T) :
  well_formed s0 -> extends s0 s -> keeps_dataset s0 s.
Proof.
  intros Hwf Hext. pose proof (extends_dataset s0 s Hwf Hext) as Hv.
  destruct Hext as (EX & EY & En & ext & Hst).
  repeat split; try assumption.
  intros l Hl. rewrite Hst. now apply nth_error_app1.
Qed.

Lemma do_call_extends (est : estimator T) (s0 s : state T) (c : call T) :
  calls_objective_only est -> well_formed s0 ->
  extends s0 s -> extends s0 (do_call est c s).
Proof.
  intros Hest Hwf Hext. destruct c as [ x | x | ]; cbn [do_call].
  - now apply fitness_h_extends.
  - unfold gradient_h.
    apply (Hest (extends s0) (fun x => fitness_h x) x); [ | assumption ].
    intros y s1 Hs1. now apply fitness_h_extends.
  - now apply get_bounds_h_extends.
Qed.

Lemma trace_extends (est : estimator T) (s0 : state T) (calls : list (call T)) :
  calls_objective_only est -> well_formed s0 ->
  forall s, extends s0 s -> Forall (extends s0) (trace est calls s).
Proof.
  intros Hest Hwf. induction calls as [ | c calls IH ]; intros s Hext; cbn [trace].
  - constructor.
  - pose proof (do_call_extends est s0 s c Hest Hwf Hext) as Hstep.
    constructor; [ exact Hstep | now apply IH ].
Qed.

(** C9: whatever sequence of [fitness], [gradient] and [get_bounds] calls
    is made, with whatever parameter vectors, after each call the
    attributes [X], [Y], [n] and the arrays they refer to are what they
    were before the first call. *)
Theorem C9_calls_keep_dataset (est : estimator T) (calls : list (call T))
        (s : state T) :
  calls_objective_only est -> well_formed s ->
  Forall (keeps_dataset s) (trace est calls s).
Proof.
  intros Hest Hwf.
  apply (Forall_impl (keeps_dataset s) (fun s' => extends_keeps s s' Hwf)).
  apply trace_extends; try assumption. apply extends_refl.
Qed.


End Frame.


End HeapFrame.

Module HeapWitness.

Import Heap HeapFrame HeapExample RealBackend.
Local Open Scope R_scope.

Lemma C9_witness :
  Forall (keeps_dataset s0)
         (trace est [CallFitness [1; 0; 0]; CallGradient [1; 0; 0]; CallBounds] s0).
Proof.
  apply (C9_calls_keep_dataset est
           [CallFitness [1; 0; 0]; CallGradient [1; 0; 0]; CallBounds] s0).
  - apply central_difference_only.
  - unfold well_formed. simpl. lia.
Defined.

End HeapWitness.

(** ** Normalisation to [[-1, 1]] and back, over the reals *)

Module RealUtil.

Import RealBackend RealOrd.
Local Open Scope R_scope.

Lemma normalize_explicit (data : list R) (mn mx : R) :
  normalize_min_max data (Some mn) (Some mx) =
  Ok (map (fun d => 2 * (d - mn) / (mx - mn) - 1) data).
Proof. reflexivity. Qed.

(** [unnormalize_min_max] undoes [normalize_min_max] when the two bounds
    differ. *)
Theorem unnormalize_normalize (data : list R) (mn mx : R) :
  mn <> mx ->
  Py.bind (normalize_min_max data (Some mn) (Some mx))
          (fun v => Ok (unnormalize_min_max v mn mx)) = Ok data.
Proof.
  intros Hne. rewrite normalize_explicit. cbn [Py.bind]. f_equal.
  unfold unnormalize_min_max. rewrite map_map.
  rewrite <- (map_id data) at 2. apply map_ext. intros d.
  cbn [b_const b_add b_sub b_mul b_div real_backend].
  field. intros E. apply Hne. lra.
Qed.

Lemma unnormalize_normalize_witness :
  Py.bind (normalize_min_max [3; 5; 4] (Some 3) (Some 5))
          (fun v => Ok (unnormalize_min_max v 3 5)) = Ok [3; 5; 4].
Proof. apply (unnormalize_normalize [3; 5; 4] 3 5). lra. Defined.

(** [normalize_min_max] undoes [unnormalize_min_max] when the two bounds
    differ. *)
Theorem normalize_unnormalize (data : list R) (mn mx : R) :
  mn <> mx ->
  normalize_min_max (unnormalize_min_max data mn mx) (Some mn) (Some mx) = Ok data.
Proof.
  intros Hne. rewrite normalize_explicit. f_equal.
  unfold unnormalize_min_max. rewrite map_map.
  rewrite <- (map_id data) at 2. apply map_ext. intros d.
  cbn [b_const b_add b_sub b_mul b_div real_backend].
  field. intros E. apply Hne. lra.
Qed.

Lemma normalize_unnormalize_witness :
  normalize_min_max (unnormalize_min_max [-1; 1; 0] 3 5) (Some 3) (Some 5) = Ok [-1; 1; 0].
Proof. apply (normalize_unnormalize [-1; 1; 0] 3 5). lra. Defined.

Lemma fold_min_le_acc (l : list R) (x : R) : fold_left Rmin l x <= x.
Proof.
  revert x. induction l as [ | y l IH ]; intros x; cbn [fold_left]; [ lra | ].
  eapply Rle_trans; [ apply IH | apply Rmin_l ].
Qed.

Lemma fold_min_le (l : list R) (x d : R) : In d (x :: l) -> fold_left Rmin l x <= d.
Proof.
  revert x. induction l as [ | y l IH ]; intros x Hin.
  - destruct Hin as [-> | []]. cbn. lra.
  - cbn [fold_left]. destruct Hin as [-> | [-> | Hin]].
    + eapply Rle_trans; [ apply fold_min_le_acc | apply Rmin_l ].
    + eapply Rle_trans; [ apply fold_min_le_acc | apply Rmin_r ].
    + apply IH. now right.
Qed.

Lemma fold_max_ge_acc (l : list R) (x : R) : x <= fold_left Rmax l x.
Proof.
  revert x. induction l as [ | y l IH ]; intros x; cbn [fold_left]; [ lra | ].
  eapply Rle_trans; [ apply Rmax_l | apply IH ].
Qed.

Lemma fold_max_ge (l : list R) (x d : R) : In d (x :: l) -> d <= fold_left Rmax l x.
Proof.
  revert x. induction l as [ | y l IH ]; intros x Hin.
  - destruct Hin as [-> | []]. cbn. lra.
  - cbn [fold_left]. destruct Hin as [-> | [-> | Hin]].
    + eapply Rle_trans; [ apply Rmax_l | apply fold_max_ge_acc ].
    + eapply Rle_trans; [ apply Rmax_r | apply fold_max_ge_acc ].
    + apply IH. now right.
Qed.

(** With the bounds left to default, every normalised value of a dataset
    that is not constant lies in [[-1, 1]]. *)
Theorem normalize_default_range (data v : list R) (mn mx : R) :
  array_min data = Ok mn -> array_max data = Ok mx -> mn < mx ->
  normalize_min_max data None None = Ok v ->
  length v = length data /\ Forall (fun y => -1 <= y <= 1) v.
Proof.
  intros Hmn Hmx Hlt Hv. unfold normalize_min_max in Hv.
  rewrite Hmn, Hmx in Hv. cbn [Py.bind] in Hv. inversion Hv; subst v; clear Hv.
  split; [ apply length_map | ].
  apply Forall_forall. intros y Hy. apply in_map_iff in Hy.
  destruct Hy as (d & <- & Hd).
  destruct data as [ | x l ]; [ contradiction | ].
  cbn [array_min array_max] in Hmn, Hmx. inversion Hmn; inversion Hmx; subst mn mx.
  cbn [b_min b_max real_ord] in *.
  pose proof (fold_min_le l x d Hd) as Hlo.
  pose proof (fold_max_ge l x d Hd) as Hhi.
  cbn [b_const b_sub b_mul b_div real_backend].
  set (mn := fold_left Rmin l x) in *. set (mx := fold_left Rmax l x) in *.
  assert (Hpos : 0 < mx - mn) by lra.
  assert (Hq : 0 <= (d - mn) / (mx - mn) <= 1).
  { split.
    - apply Rmult_le_pos; [ lra | left; now apply Rinv_0_lt_compat ].
    - apply (Rmult_le_reg_r (mx - mn)); [ assumption | ].
      unfold Rdiv. rewrite Rmult_assoc, Rinv_l by lra. lra. }
  replace (2 * (d - mn) / (mx - mn)) with (2 * ((d - mn) / (mx - mn)))
    by (unfold Rdiv; ring).
  lra.
Qed.

Lemma normalize_default_range_witness :
  length [-1; 1; 0] = length [3; 5; 4] /\ Forall (fun y => -1 <= y <= 1) [-1; 1; 0].
Proof.
  apply (normalize_default_range [3; 5; 4] [-1; 1; 0] 3 5).
  - cbn. unfold Rmin. repeat (destruct (Rle_dec _ _); try lra). reflexivity.
  - cbn. unfold Rmax. repeat (destruct (Rle_dec _ _); try lra). reflexivity.
  - lra.
  - cbn. unfold Rmin, Rmax. repeat (destruct (Rle_dec _ _); try lra).
    do 2 f_equal; [ | f_equal; [ | f_equal ] ]; field.
Defined.

End RealUtil.

(** ** Normalisation of constant data, on binary64 numbers *)

Module FloatUtil.

Import SpecClass SpecFacts FloatBackend FloatFacts FloatOrd.

Lemma sub_self_zero_or_nan (m : spec_float) :
  sf_zero_or_nan (SF64sub m m) = true.
Proof.
  destruct m as [ [ | ] | [ | ] | | s mm e ]; try reflexivity.
  unfold SF64sub, SFsub. rewrite Z.sub_diag. reflexivity.
Qed.

Lemma fmin_self (d : float) : fmin d d = d.
Proof.
  unfold fmin. destruct (PrimFloat.is_nan d); [ reflexivity | ].
  destruct (d <? d)%float; reflexivity.
Qed.

Lemma fmax_self (d : float) : fmax d d = d.
Proof.
  unfold fmax. destruct (PrimFloat.is_nan d); [ reflexivity | ].
  destruct (d <? d)%float; reflexivity.
Qed.

Lemma fold_fmin_repeat (d : float) (k : nat) : fold_left fmin (repeat d k) d = d.
Proof. induction k as [ | k IH ]; cbn; [ reflexivity | now rewrite fmin_self ]. Qed.

Lemma fold_fmax_repeat (d : float) (k : nat) : fold_left fmax (repeat d k) d = d.
Proof. induction k as [ | k IH ]; cbn; [ reflexivity | now rewrite fmax_self ]. Qed.

(** [2 * (d - d) / (d - d) - 1] is a NaN, whatever [d]. *)
Lemma normalize_constant_value (d : float) :
  (float_of_Z 2 * (d - d) / (d - d) - float_of_Z 1)%float = nan.
Proof.
  apply prim_nan.
  rewrite sub_spec, div_spec, mul_spec, !sub_spec.
  pose proof (sub_self_zero_or_nan (Prim2SF d)) as Hz.
  change (Prim2SF (float_of_Z 2)) with (S754_finite false 4503599627370496 (-51)).
  destruct (SF64sub (Prim2SF d) (Prim2SF d)) as [ s | | | ]; try discriminate.
  - destruct s; destruct (Prim2SF (float_of_Z 1)); reflexivity.
  - destruct (Prim2SF (float_of_Z 1)); reflexivity.
Qed.

(** An array whose entries are all the same number normalises, with the
    default bounds, to an array of NaN: its minimum and maximum coincide and
    the quotient is [0 / 0]. *)
Theorem normalize_constant_is_nan (L : libm) (d : float) (k : nat) :
  normalize_min_max (H := float_backend L) (H0 := float_ord)
                    (repeat d (S k)) None None =
  Ok (repeat nan (S k)).
Proof.
  unfold normalize_min_max. cbn [repeat array_min array_max Py.bind].
  cbn [b_min b_max float_ord]. rewrite fold_fmin_repeat, fold_fmax_repeat.
  f_equal. change (d :: repeat d k) with (repeat d (S k)).
  rewrite (map_constant _ nan).
  - now rewrite repeat_length.
  - intros x Hx. apply repeat_spec in Hx. subst x.
    cbn [b_const b_sub b_mul b_div float_backend].
    apply normalize_constant_value.
Qed.

End FloatUtil.

(** ** The mean absolute percentage error, over the reals *)

Module RealMape.

Import RealBackend.
Local Open Scope R_scope.

Lemma np_sum_zero (l : list R) : (forall x, In x l -> x = 0) -> np_sum l = 0.
Proof.
  unfold np_sum. cbn [b_const b_add real_backend].
  induction l as [ | x l IH ]; intros Hall; cbn [fold_left]; [ reflexivity | ].
  rewrite (Hall x) by now left. rewrite Rplus_0_l. apply IH.
  intros y Hy. apply Hall. now right.
Qed.

Lemma fold_plus_nonneg (l : list R) (acc : R) :
  0 <= acc -> (forall x, In x l -> 0 <= x) -> 0 <= fold_left Rplus l acc.
Proof.
  revert acc. induction l as [ | x l IH ]; intros acc Hacc Hall; cbn [fold_left];
    [ assumption | ].
  apply IH.
  - pose proof (Hall x (or_introl eq_refl)). lra.
  - intros y Hy. apply Hall. now right.
Qed.

Lemma mape_quotients (y_true y_pred : list R) :
  map b_abs
      (map (fun ab : R * R => b_div (fst ab) (snd ab))
           (combine (map (fun ab : R * R => b_sub (fst ab) (snd ab))
                         (combine y_true y_pred))
                    y_true)) =
  map (fun tp => Rabs ((fst tp - snd tp) / fst tp)) (combine y_true y_pred).
Proof.
  revert y_pred. induction y_true as [ | t y_true IH ]; intros [ | p y_pred ];
    cbn [combine map]; try reflexivity.
  f_equal. apply IH.
Qed.

(** The quotients [(t - p) / t] of two tensors of the same length. *)
Lemma mape_same_length (y_true y_pred : list R) :
  length y_true = length y_pred ->
  mean_absolute_percentage_error y_true y_pred =
  Torch.Ok (np_mean (map (fun tp => Rabs ((fst tp - snd tp) / fst tp))
                         (combine y_true y_pred)) * 100).
Proof.
  intros Hl. unfold mean_absolute_percentage_error, torch_broadcast2.
  rewrite Hl, Nat.eqb_refl.
  rewrite length_map, length_combine, Hl, Nat.min_id, <- Hl, Nat.eqb_refl.
  rewrite mape_quotients. reflexivity.
Qed.

(** A perfect prediction has error zero. *)
Theorem mape_of_itself (y : list R) :
  y <> [] -> Forall (fun t => t <> 0) y ->
  mean_absolute_percentage_error y y = Torch.Ok 0.
Proof.
  intros Hne Hnz. rewrite mape_same_length by reflexivity. f_equal.
  unfold np_mean. rewrite np_sum_zero.
  - cbn [b_div b_const real_backend]. unfold Rdiv. ring.
  - intros x Hx. apply in_map_iff in Hx. destruct Hx as ([t p] & <- & Hin).
    cbn [fst snd].
    assert (t = p).
    { clear -Hin. induction y as [ | a y IH ]; cbn in Hin; [ contradiction | ].
      destruct Hin as [E | Hin]; [ now inversion E | now apply IH ]. }
    subst p. unfold Rminus. rewrite Rplus_opp_r. unfold Rdiv. rewrite Rmult_0_l.
    apply Rabs_R0.
Qed.

Lemma mape_of_itself_witness : mean_absolute_percentage_error [2; 4] [2; 4] = Torch.Ok 0.
Proof.
  apply (mape_of_itself [2; 4]).
  - discriminate.
  - repeat constructor; lra.
Defined.

(** The error is never negative. *)
Theorem mape_nonnegative (y_true y_pred : list R) (e : R) :
  y_true <> [] ->
  mean_absolute_percentage_error y_true y_pred = Torch.Ok e -> 0 <= e.
Proof.
  intros Hne. unfold mean_absolute_percentage_error.
  destruct (torch_broadcast2 b_sub y_true y_pred) as [ d | ]; [ | discriminate ].
  destruct (torch_broadcast2 b_div d y_true) as [ q | ]; [ | discriminate ].
  intros E. inversion E; subst e; clear E.
  unfold np_mean, np_sum. cbn [b_div b_mul b_add b_const real_backend].
  apply Rmult_le_pos; [ | lra ].
  apply Rmult_le_pos.
  - apply fold_plus_nonneg; [ lra | ].
    intros x Hx. apply in_map_iff in Hx. destruct Hx as (u & <- & _).
    apply Rabs_pos.
  - rewrite length_map. rewrite <- INR_IZR_INZ.
    destruct (length q); [ cbn; rewrite Rinv_0; lra | ].
    left. apply Rinv_0_lt_compat. apply lt_0_INR. lia.
Qed.

Lemma mape_nonnegative_witness : 0 <= 0.
Proof.
  apply (mape_nonnegative [2; 4] [2; 4] 0).
  - discriminate.
  - rewrite mape_same_length by reflexivity. f_equal.
    unfold np_mean, np_sum. cbn.
    replace ((2 - 2) / 2) with 0 by field.
    replace ((4 - 4) / 4) with 0 by field.
    rewrite Rabs_R0. field.
Defined.

(** Rescaling the truth and the prediction by the same non-zero factor
    leaves the error unchanged. *)
Theorem mape_scale_invariant (c : R) (y_true y_pred : list R) :
  c <> 0 -> length y_true = length y_pred -> Forall (fun t => t <> 0) y_true ->
  mean_absolute_percentage_error (map (Rmult c) y_true) (map (Rmult c) y_pred) =
  mean_absolute_percentage_error y_true y_pred.
Proof.
  intros Hc Hl Hnz.
  rewrite !mape_same_length by (rewrite ?length_map; assumption).
  do 2 f_equal. unfold np_mean. rewrite !length_map, !length_combine, !length_map.
  f_equal. f_equal.
  revert y_pred Hl. induction Hnz as [ | t y_true Ht Hnz IH ]; intros [ | p y_pred ] Hl;
    cbn in Hl; try discriminate; [ reflexivity | ].
  cbn [map combine fst snd]. f_equal.
  - f_equal. field. split; assumption.
  - apply IH. congruence.
Qed.

Lemma mape_scale_invariant_witness :
  mean_absolute_percentage_error (map (Rmult 3) [2; 4]) (map (Rmult 3) [1; 5]) =
  mean_absolute_percentage_error [2; 4] [1; 5].
Proof.
  apply (mape_scale_invariant 3 [2; 4] [1; 5]).
  - lra.
  - reflexivity.
  - repeat constructor; lra.
Defined.

End RealMape.

(** ** [geo2cart] and [cart2geo] in exact arithmetic *)

Module RealGeodesy.

Import RealBackend.
Local Open Scope R_scope.

(** The argument of the square root in [N] is positive on an ellipsoid with
    [e2 < 1]. *)
Lemma radicand_positive (e2 lat : R) : e2 < 1 -> 0 < 1 - e2 * (sin lat)².
Proof.
  intros He.
  pose proof (sin2_cos2 lat) as Hsc.
  pose proof (Rle_0_sqr (sin lat)) as Hs.
  pose proof (Rle_0_sqr (cos lat)) as Hc.
  generalize dependent ((sin lat)²). generalize dependent ((cos lat)²).
  intros c Hc s Hsc Hs.
  assert (0 <= (1 - e2) * s) by (apply Rmult_le_pos; lra).
  destruct (Rle_lt_dec s 0); nra.
Qed.

Lemma radicand_le_1 (e2 lat : R) : 0 <= e2 -> 1 - e2 * (sin lat)² <= 1.
Proof.
  intros He. pose proof (Rle_0_sqr (sin lat)) as Hs.
  generalize dependent ((sin lat)²). intros s Hs.
  pose proof (Rmult_le_pos _ _ He Hs). lra.
Qed.

(** With [0 <= e2 < 1] the radius [N] is at least the equatorial one. *)
Lemma prime_vertical_ge (e2 R_eq lat : R) :
  0 <= e2 < 1 -> 0 < R_eq -> R_eq <= R_eq / sqrt (1 - e2 * (sin lat)²).
Proof.
  intros [He0 He1] HR.
  pose proof (radicand_positive e2 lat He1) as HW.
  pose proof (sqrt_lt_R0 _ HW) as Hq.
  assert (Hq1 : sqrt (1 - e2 * (sin lat)²) <= 1).
  { rewrite <- sqrt_1 at 2. apply sqrt_le_1_alt. now apply radicand_le_1. }
  apply (Rmult_le_reg_r (sqrt (1 - e2 * (sin lat)²))); [ assumption | ].
  unfold Rdiv. rewrite Rmult_assoc, Rinv_l by lra. nra.
Qed.

(** A point of altitude zero lies on the ellipsoid of equatorial radius
    [R_eq] and squared eccentricity [e2]. *)
Theorem geo2cart_on_ellipsoid (lat lon e2 R_eq : R) :
  e2 < 1 -> R_eq <> 0 ->
  let '(x, y, z) := geo2cart 0 lat lon e2 R_eq in
  (x² + y²) / R_eq² + z² / (R_eq² * (1 - e2)) = 1.
Proof.
  intros He HR. unfold geo2cart. cbv zeta.
  cbn [b_div b_sub b_mul b_add b_const b_sqr b_sqrt b_sin b_cos real_backend].
  pose proof (radicand_positive e2 lat He) as HW.
  pose proof (sqrt_lt_R0 _ HW) as Hq.
  pose proof (sqrt_sqrt _ (Rlt_le _ _ HW)) as Hqq.
  pose proof (sin2_cos2 lat) as Hlat.
  pose proof (sin2_cos2 lon) as Hlon.
  set (q := sqrt (1 - e2 * (sin lat)²)) in *.
  unfold Rsqr in *.
  assert (E : ((R_eq / q + 0) * cos lat * cos lon * ((R_eq / q + 0) * cos lat * cos lon) +
               (R_eq / q + 0) * cos lat * sin lon * ((R_eq / q + 0) * cos lat * sin lon)) /
              (R_eq * R_eq) +
              ((1 - e2) * (R_eq / q) + 0) * sin lat * (((1 - e2) * (R_eq / q) + 0) * sin lat) /
              (R_eq * R_eq * (1 - e2)) =
              (cos lat * cos lat * (sin lon * sin lon + cos lon * cos lon)
               + (1 - e2) * (sin lat * sin lat)) / (q * q)).
  { field. repeat split; lra. }
  rewrite E, Hlon, Hqq.
  replace (cos lat * cos lat) with (1 - sin lat * sin lat) by lra.
  field. lra.
Qed.

Lemma geo2cart_on_ellipsoid_witness :
  let '(x, y, z) := geo2cart 0 1 2 (1 / 2) 3 in
  (x² + y²) / 3² + z² / (3² * (1 - 1 / 2)) = 1.
Proof. apply (geo2cart_on_ellipsoid 1 2 (1 / 2) 3); lra. Defined.

(** The distance from the polar axis of the point [geo2cart] returns. *)
Lemma axis_distance (r lon : R) :
  0 <= r -> sqrt ((r * cos lon)² + (r * sin lon)²) = r.
Proof.
  intros Hr. pose proof (sin2_cos2 lon) as Hlon.
  replace ((r * cos lon)² + (r * sin lon)²) with (r²)
    by (unfold Rsqr in *; nra).
  now apply sqrt_Rsqr.
Qed.

Lemma tan_minus_PI (r lon : R) :
  r <> 0 -> cos lon <> 0 -> r * sin lon / (r * cos lon) = tan (lon - PI).
Proof.
  intros Hr Hc. unfold tan.
  rewrite sin_minus, cos_minus, sin_PI, cos_PI. field. lra.
Qed.

Lemma tan_plus_PI (r lon : R) :
  r <> 0 -> cos lon <> 0 -> r * sin lon / (r * cos lon) = tan (lon + PI).
Proof.
  intros Hr Hc. unfold tan. rewrite neg_sin, neg_cos. field. lra.
Qed.

(** The two-argument arctangent gives back the angle of a point in polar
    form. *)
Lemma atan2_polar (r lon : R) :
  0 < r -> - PI < lon <= PI -> atan2 (r * sin lon) (r * cos lon) = lon.
Proof.
  intros Hr [Hlo Hhi]. pose proof PI_RGT_0 as Hpi. unfold atan2.
  destruct (Rtotal_order lon (- (PI / 2))) as [Ha | [-> | Ha]].
  - (* the lower left quadrant *)
    assert (Hc : cos lon < 0).
    { rewrite <- cos_neg. apply cos_lt_0; lra. }
    assert (Hs : sin lon < 0) by (apply sin_lt_0_var; lra).
    destruct (Rlt_dec 0 (r * cos lon)) as [F | _]; [ nra | ].
    destruct (Rlt_dec (r * cos lon) 0) as [_ | F]; [ | exfalso; apply F; nra ].
    destruct (Rle_dec 0 (r * sin lon)) as [F | _]; [ nra | ].
    rewrite tan_plus_PI by lra. rewrite atan_tan by lra. lra.
  - rewrite sin_neg, cos_neg, cos_PI2, sin_PI2, Rmult_0_r.
    destruct (Rlt_dec 0 0) as [F | _]; [ lra | ].
    destruct (Rlt_dec 0 (r * - (1))) as [F | _]; [ lra | ].
    destruct (Rlt_dec (r * - (1)) 0) as [_ | F]; [ reflexivity | lra ].
  - destruct (Rtotal_order lon (PI / 2)) as [Hb | [-> | Hb]].
    + (* the right half plane *)
      pose proof (cos_gt_0 lon Ha Hb) as Hc.
      destruct (Rlt_dec 0 (r * cos lon)) as [_ | F]; [ | exfalso; apply F; nra ].
      replace (r * sin lon / (r * cos lon)) with (tan lon)
        by (unfold tan; field; lra).
      apply atan_tan. lra.
    + rewrite cos_PI2, sin_PI2, Rmult_0_r, Rmult_1_r.
      destruct (Rlt_dec 0 0) as [F | _]; [ lra | ].
      destruct (Rlt_dec 0 r) as [_ | F]; [ reflexivity | contradiction ].
    + (* the upper left quadrant *)
      assert (Hc : cos lon < 0) by (apply cos_lt_0; lra).
      assert (Hs : 0 <= sin lon) by (apply sin_ge_0; lra).
      destruct (Rlt_dec 0 (r * cos lon)) as [F | _]; [ nra | ].
      destruct (Rlt_dec (r * cos lon) 0) as [_ | F]; [ | exfalso; apply F; nra ].
      destruct (Rle_dec 0 (r * sin lon)) as [_ | F]; [ | exfalso; apply F; nra ].
      rewrite tan_minus_PI by lra. rewrite atan_tan by lra. lra.
Qed.

Section Solution.

(** A geodetic point [(h, lat, lon)] off the polar axis and above the depth
    [(1 - e2) * R_eq], on an oblate ellipsoid. *)
Variables h lat lon e2 R_eq : R.
Hypothesis He : 0 <= e2 < 1.
Hypothesis HR : 0 < R_eq.
Hypothesis Hh : - ((1 - e2) * R_eq) < h.
Hypothesis Hlat : - (PI / 2) < lat < PI / 2.

Let N : R := R_eq / sqrt (1 - e2 * (sin lat)²).
Let p : R := (N + h) * cos lat.
Let z : R := ((1 - e2) * N + h) * sin lat.

Lemma solution_signs : 0 < cos lat /\ 0 < (1 - e2) * N + h /\ 0 < N + h /\ 0 < p.
Proof using He HR Hh Hlat.
  assert (Hc : 0 < cos lat) by (apply cos_gt_0; lra).
  pose proof (prime_vertical_ge e2 R_eq lat He HR) as HN. fold N in HN.
  assert (H1 : 0 < (1 - e2) * N + h) by nra.
  assert (H2 : 0 < N + h) by nra.
  repeat split; try assumption. unfold p. nra.
Qed.

(** One pass of the loop from the true latitude returns the true altitude
    and leaves the latitude where it is. *)
Lemma body_at_solution (oh : option R) :
  cart2geo_body z p e2 R_eq {| loc_h := oh; loc_phi := lat |} =
  {| loc_h := Some h; loc_phi := lat |}.
Proof using He HR Hh Hlat.
  destruct solution_signs as (Hc & H1 & H2 & Hp).
  unfold cart2geo_body. cbv zeta. cbn [loc_phi].
  cbn [b_div b_sub b_mul b_add b_const b_sqr b_sqrt b_sin b_cos b_atan real_backend].
  fold N.
  assert (Eh : p / cos lat - N = h) by (unfold p; field; lra).
  rewrite Eh. f_equal.
  replace (z / p / (1 - e2 * N / (N + h))) with (tan lat).
  - apply atan_tan. lra.
  - unfold z, p, tan. field. repeat split; lra.
Qed.

Lemma iter_at_solution (oh : option R) (k : nat) :
  Nat.iter (S k) (cart2geo_body z p e2 R_eq) {| loc_h := oh; loc_phi := lat |} =
  {| loc_h := Some h; loc_phi := lat |}.
Proof using He HR Hh Hlat.
  induction k as [ | k IH ].
  - apply body_at_solution.
  - rewrite Nat.iter_succ, IH. apply body_at_solution.
Qed.

End Solution.

(** The true latitude is a fixed point of the refinement: on the Cartesian
    image of [(h, lat, lon)], one pass of the loop of [cart2geo] started at
    [lat] returns the altitude [h] and the latitude [lat]. *)
Theorem cart2geo_body_fixed_point (h lat lon e2 R_eq : R) (oh : option R) :
  0 <= e2 < 1 -> 0 < R_eq -> - ((1 - e2) * R_eq) < h ->
  - (PI / 2) < lat < PI / 2 ->
  let '(x, y, z) := geo2cart h lat lon e2 R_eq in
  cart2geo_body z (sqrt (x² + y²)) e2 R_eq {| loc_h := oh; loc_phi := lat |} =
  {| loc_h := Some h; loc_phi := lat |}.
Proof.
  intros He HR Hh Hlat. unfold geo2cart. cbv zeta.
  cbn [b_div b_sub b_mul b_add b_const b_sqr b_sqrt b_sin b_cos real_backend].
  destruct (solution_signs h lat e2 R_eq He HR Hh Hlat) as (Hc & H1 & H2 & Hp).
  rewrite !(Rmult_assoc _ (cos lat)), <- !Rmult_assoc.
  rewrite axis_distance by lra.
  apply (body_at_solution h lat e2 R_eq He HR Hh Hlat).
Qed.

Lemma cart2geo_body_fixed_point_witness :
  let '(x, y, z) := geo2cart 5 (PI / 4) 0 (1 / 2) 10 in
  cart2geo_body z (sqrt (x² + y²)) (1 / 2) 10 {| loc_h := None; loc_phi := PI / 4 |} =
  {| loc_h := Some 5; loc_phi := PI / 4 |}.
Proof.
  pose proof PI_RGT_0.
  apply (cart2geo_body_fixed_point 5 (PI / 4) 0 (1 / 2) 10 None); lra.
Defined.

(** The round trip is exact where the first guess is: for a point on the
    ellipsoid ([h = 0]) or a sphere ([e2 = 0]), [cart2geo] after [geo2cart]
    gives back altitude, latitude and longitude, whatever the number of
    passes. *)
Theorem cart2geo_geo2cart_round_trip (h lat lon e2 R_eq : R) (iters : Z) :
  0 <= e2 < 1 -> 0 < R_eq -> - ((1 - e2) * R_eq) < h ->
  - (PI / 2) < lat < PI / 2 -> - PI < lon <= PI ->
  h * e2 = 0 -> (1 <= iters)%Z ->
  let '(x, y, z) := geo2cart h lat lon e2 R_eq in
  cart2geo x y z e2 R_eq iters = Ok (h, lat, lon).
Proof.
  intros He HR Hh Hlat Hlon Hflat Hit. unfold geo2cart, cart2geo. cbv zeta.
  cbn [b_div b_sub b_mul b_add b_const b_sqr b_sqrt b_sin b_cos b_atan b_atan2
       real_backend].
  destruct (solution_signs h lat e2 R_eq He HR Hh Hlat) as (Hc & H1 & H2 & Hp).
  set (N := R_eq / sqrt (1 - e2 * (sin lat)²)) in *.
  rewrite !(Rmult_assoc _ (cos lat)), <- !Rmult_assoc.
  rewrite axis_distance by lra.
  rewrite atan2_polar by assumption.
  replace (((1 - e2) * N + h) * sin lat / ((N + h) * cos lat) / (1 - e2))
    with (tan lat).
  - rewrite atan_tan by lra.
    replace (Z.to_nat iters) with (S (Z.to_nat (iters - 1))) by lia.
    unfold N.
    rewrite (iter_at_solution h lat e2 R_eq He HR Hh Hlat). reflexivity.
  - unfold tan.
    replace ((1 - e2) * N + h) with ((1 - e2) * (N + h)) by nra.
    field. repeat split; lra.
Qed.

Lemma cart2geo_geo2cart_round_trip_witness :
  let '(x, y, z) := geo2cart 0 (PI / 4) PI (1 / 2) 10 in
  cart2geo x y z (1 / 2) 10 4 = Ok (0, PI / 4, PI).
Proof.
  pose proof PI_RGT_0.
  apply (cart2geo_geo2cart_round_trip 0 (PI / 4) PI (1 / 2) 10 4); lra || lia.
Defined.

(** Mirror symmetry of one pass of the loop: on [- z] from [- phi] it
    computes the altitude of the pass on [z] from [phi], and the negated
    latitude. *)
Lemma body_mirror (z p e2 R_eq phi : R) (oh : option R) :
  cart2geo_body (- z) p e2 R_eq {| loc_h := oh; loc_phi := - phi |} =
  {| loc_h := loc_h (cart2geo_body z p e2 R_eq {| loc_h := oh; loc_phi := phi |});
     loc_phi := - loc_phi (cart2geo_body z p e2 R_eq {| loc_h := oh; loc_phi := phi |}) |}.
Proof.
  unfold cart2geo_body. cbv zeta. cbn [loc_phi loc_h].
  cbn [b_div b_sub b_mul b_add b_const b_sqr b_sqrt b_sin b_cos b_atan real_backend].
  rewrite sin_neg, <- Rsqr_neg, cos_neg. f_equal.
  rewrite <- atan_opp. f_equal. unfold Rdiv. ring.
Qed.

Lemma iter_body_mirror (z p e2 R_eq phi : R) (oh : option R) (k : nat) :
  Nat.iter k (cart2geo_body (- z) p e2 R_eq) {| loc_h := oh; loc_phi := - phi |} =
  {| loc_h := loc_h (Nat.iter k (cart2geo_body z p e2 R_eq)
                              {| loc_h := oh; loc_phi := phi |});
     loc_phi := - loc_phi (Nat.iter k (cart2geo_body z p e2 R_eq)
                                    {| loc_h := oh; loc_phi := phi |}) |}.
Proof.
  induction k as [ | k IH ]; [ reflexivity | ].
  rewrite !Nat.iter_succ, IH.
  destruct (Nat.iter k (cart2geo_body z p e2 R_eq) _) as [oh' phi'].
  apply body_mirror.
Qed.

(** The two hemispheres are treated alike: negating [z] negates the latitude
    and leaves altitude and longitude as they are. *)
Theorem cart2geo_mirror (x y z e2 R_eq : R) (iters : Z) :
  cart2geo x y (- z) e2 R_eq iters =
  match cart2geo x y z e2 R_eq iters with
  | Ok (h, phi, long) => Ok (h, - phi, long)
  | Raise e => Raise e
  end.
Proof.
  unfold cart2geo. cbv zeta.
  cbn [b_div b_sub b_mul b_add b_const b_sqr b_sqrt b_atan b_atan2 real_backend].
  replace (atan (- z / sqrt (x² + y²) / (1 - e2)))
    with (- atan (z / sqrt (x² + y²) / (1 - e2)))
    by (rewrite <- atan_opp; f_equal; unfold Rdiv; ring).
  rewrite iter_body_mirror. cbn [loc_h loc_phi].
  destruct (loc_h _); reflexivity.
Qed.

(** On the equatorial plane the latitude is zero and the altitude is the
    distance from the axis less the equatorial radius. The hypotheses keep
    every divisor of the source away from zero. *)
Theorem cart2geo_equator (x y e2 R_eq : R) (iters : Z) :
  (1 <= iters)%Z -> 0 < x² + y² -> e2 <> 1 -> sqrt (x² + y²) <> e2 * R_eq ->
  cart2geo x y 0 e2 R_eq iters = Ok (sqrt (x² + y²) - R_eq, 0, atan2 y x).
Proof.
  intros Hit _ _ _. unfold cart2geo. cbv zeta.
  cbn [b_div b_sub b_mul b_add b_const b_sqr b_sqrt b_atan b_atan2 real_backend].
  set (p := sqrt (x² + y²)).
  assert (Ez : forall c d, atan (0 / c / d) = 0).
  { intros c d. unfold Rdiv. rewrite !Rmult_0_l. apply atan_0. }
  rewrite Ez.
  assert (Eb : forall oh, cart2geo_body 0 p e2 R_eq {| loc_h := oh; loc_phi := 0 |} =
                          {| loc_h := Some (p - R_eq); loc_phi := 0 |}).
  { intros oh. unfold cart2geo_body. cbv zeta. cbn [loc_phi].
    cbn [b_div b_sub b_mul b_add b_const b_sqr b_sqrt b_sin b_cos b_atan real_backend].
    rewrite Ez, sin_0, cos_0, Rsqr_0, Rmult_0_r, Rminus_0_r, sqrt_1.
    do 2 f_equal. field. }
  replace (Z.to_nat iters) with (S (Z.to_nat (iters - 1))) by lia.
  assert (Ei : forall k oh,
             Nat.iter (S k) (cart2geo_body 0 p e2 R_eq) {| loc_h := oh; loc_phi := 0 |} =
             {| loc_h := Some (p - R_eq); loc_phi := 0 |}).
  { induction k as [ | k IH ]; intros oh; [ apply Eb | ].
    rewrite Nat.iter_succ, IH. apply Eb. }
  rewrite Ei. reflexivity.
Qed.

Lemma cart2geo_equator_witness :
  cart2geo 3 4 0 (1 / 2) 2 4 = Ok (sqrt (3² + 4²) - 2, 0, atan2 4 3).
Proof.
  assert (E : 3² + 4² = 5²) by (unfold Rsqr; lra).
  apply (cart2geo_equator 3 4 (1 / 2) 2 4); [ lia | unfold Rsqr; lra | lra | ].
  rewrite E, sqrt_Rsqr by lra. lra.
Defined.

End RealGeodesy.

(** ** [fitness] and [get_bounds]: shapes and errors *)

Section FitnessShapes.

Context {T : Type} `{Backend T}.

(** numpy's broadcasting of two one-dimensional arrays either returns, on
    shapes that agree or hold a single element, or raises [ValueError]. *)
Lemma broadcast2_cases (f : T -> T -> T) (a b : list T) :
  (exists d, broadcast2 f a b = Ok d /\
             (length a = length b \/ length a = 1%nat \/ length b = 1%nat)) \/
  (broadcast2 f a b = Raise ValueError /\
   length a <> length b /\ length a <> 1%nat /\ length b <> 1%nat).
Proof.
  unfold broadcast2.
  destruct (Nat.eqb_spec (length a) (length b)) as [E | NE].
  - left. eexists. split; [ reflexivity | now left ].
  - destruct a as [ | x [ | x' a ] ].
    + destruct b as [ | y [ | y' b ] ]; [ contradiction | | ].
      * left. eexists. split; [ reflexivity | right; now right ].
      * right. repeat split; simpl; congruence.
    + left. eexists. split; [ reflexivity | right; now left ].
    + destruct b as [ | y [ | y' b ] ].
      * right. repeat split; simpl; congruence.
      * left. eexists. split; [ reflexivity | right; now right ].
      * right. repeat split; simpl in *; congruence.
Qed.

(** [fitness] raises exactly when the altitudes and the densities of the
    dataset have different lengths, neither of them one; the exception is
    numpy's [ValueError], and no other exception leaves [fitness]. The
    parameter vector plays no part in it. *)
Theorem fitness_raises_iff (self : global_fit_udp T) (x : list T) :
  (fitness self x = Raise ValueError <->
   length (X self) <> length (Y self) /\
   length (X self) <> 1%nat /\ length (Y self) <> 1%nat) /\
  (forall e, fitness self x = Raise e -> e = ValueError).
Proof.
  unfold fitness. cbv zeta.
  destruct (broadcast2_cases b_sub (map b_log10 (Y self))
              (map b_log10 (rho_approximation (X self) x)))
    as [(d & -> & Hl) | (-> & Hl)];
    rewrite !length_map, rho_approximation_length in Hl; cbn [bind].
  - split; [ split; [ discriminate | intros (H1 & H2 & H3); exfalso ]
           | discriminate ].
    destruct Hl as [Hl | [Hl | Hl]]; congruence.
  - split; [ split; [ intros _ | reflexivity ] | intros e E; congruence ].
    destruct Hl as (H1 & H2 & H3). repeat split; congruence.
Qed.

(** A term count that is zero or negative is accepted: both bounds are
    empty lists. *)
Theorem get_bounds_nonpositive_n (self : global_fit_udp T) :
  (n self <= 0)%Z -> get_bounds self = ([], []).
Proof.
  intros Hn. unfold get_bounds. cbv zeta.
  rewrite !list_mul_singleton.
  replace (Z.to_nat (n self)) with 0%nat by lia.
  cbn [repeat]. unfold list_mul, set_slice_from. cbn [concat repeat Z.to_nat app].
  change (concat (repeat [] (Pos.to_nat 3))) with (@nil num).
  now rewrite firstn_nil.
Qed.

End FitnessShapes.

Lemma get_bounds_nonpositive_n_witness :
  get_bounds {| X := @nil R; Y := []; n := -2 |} = ([], []).
Proof.
  apply (get_bounds_nonpositive_n {| X := @nil R; Y := []; n := -2 |}).
  simpl. lia.
Defined.

(** ** The objective and the density model over the reals: signs and
    monotonicity *)

Module RealFitness.

Import RealBackend RealSpec.
Local Open Scope R_scope.

Lemma combine_self_sub (l : list R) (d : R) :
  In d (map (fun ab => fst ab - snd ab) (combine (map log10 l) (map log10 l))) -> d = 0.
Proof.
  induction l as [ | y l IH ]; cbn [map combine In fst snd]; [ contradiction | ].
  intros [<- | Hd]; [ lra | now apply IH ].
Qed.

(** The objective is zero at parameters that reproduce the data: when [Y]
    is the model's own (positive) prediction at [X], [fitness] returns
    [[0]]. *)
Theorem fitness_of_own_prediction (X0 x : list R) (n0 : Z) :
  X0 <> [] -> Forall (fun r => 0 < r) (rho_approximation X0 x) ->
  fitness {| X := X0; Y := rho_approximation X0 x; n := n0 |} x = Ok [0].
Proof.
  intros _ _. unfold fitness. cbv zeta. cbn [X Y].
  rewrite RealDensity.broadcast2_same_length by reflexivity.
  cbn [bind]. do 2 f_equal.
  unfold np_mean. rewrite RealMape.np_sum_zero.
  - cbn [b_div real_backend]. unfold Rdiv. ring.
  - intros v Hv. apply in_map_iff in Hv. destruct Hv as (d & <- & Hd).
    cbn [b_abs b_sub b_log10 real_backend] in *.
    rewrite (combine_self_sub _ d Hd). apply Rabs_R0.
Qed.

Lemma fitness_of_own_prediction_witness :
  fitness {| X := [5]; Y := rho_approximation [5] [1; 0; 0]; n := 1 |} [1; 0; 0] = Ok [0].
Proof.
  apply (fitness_of_own_prediction [5] [1; 0; 0] 1); [ discriminate | ].
  repeat constructor.
  cbn [b_add b_mul b_sub b_neg b_exp b_const fst snd real_backend].
  pose proof (exp_pos (- (5 - 0) * 0)). lra.
Defined.

Lemma inv_count_nonneg (m : nat) : 0 <= / IZR (Z.of_nat m).
Proof.
  destruct m as [ | m ].
  - change (IZR (Z.of_nat 0)) with 0. rewrite Rinv_0. lra.
  - apply Rlt_le, Rinv_0_lt_compat, IZR_lt. lia.
Qed.

(** The objective is never negative. The dataset is taken non-empty, so
    that the mean is one of at least one value. *)
Theorem fitness_nonnegative (self : global_fit_udp R) (x : list R) (v : R) :
  X self <> [] -> Y self <> [] -> fitness self x = Ok [v] -> 0 <= v.
Proof.
  intros _ _. unfold fitness. cbv zeta.
  destruct (broadcast2 _ _ _) as [d | e]; cbn [bind]; [ | discriminate ].
  intros E. injection E as <-.
  unfold np_mean, np_sum. cbn [b_div b_add b_const real_backend].
  apply Rmult_le_pos.
  - apply RealMape.fold_plus_nonneg; [ lra | ].
    intros y Hy. apply in_map_iff in Hy. destruct Hy as (t & <- & _).
    apply Rabs_pos.
  - apply inv_count_nonneg.
Qed.

Lemma fitness_nonnegative_witness :
  0 <= np_mean (map b_abs [log10 1 - log10 (0 + 1 * exp (- (5 - 0) * 0))]).
Proof.
  apply (fitness_nonnegative {| X := [5]; Y := [1]; n := 1 |} [1; 0; 0]);
    [ discriminate | discriminate | reflexivity ].
Defined.

Lemma sum_f_R0_pos (f : nat -> R) (m : nat) :
  (forall i, (i <= m)%nat -> 0 < f i) -> 0 < sum_f_R0 f m.
Proof.
  induction m as [ | m IH ]; intros Hf; cbn [sum_f_R0].
  - apply Hf. lia.
  - pose proof (Hf (S m) (Nat.le_refl _)).
    assert (0 < sum_f_R0 f m) by (apply IH; intros i Hi; apply Hf; lia).
    lra.
Qed.

(** With every [alpha_i] positive the predicted density is positive at
    every altitude, so that its logarithm in [fitness] is defined. *)
Theorem rho_approximation_positive (k : nat) (h params : list R) :
  (1 <= k)%nat -> length params = (3 * k)%nat ->
  (forall i, (i < k)%nat -> 0 < nth i params 0) ->
  Forall (fun r => 0 < r) (rho_approximation h params).
Proof.
  intros Hk Hl Halpha.
  rewrite (RealDensity.rho_approximation_model k h params Hl).
  apply Forall_forall. intros r Hr. apply in_map_iff in Hr.
  destruct Hr as (hj & <- & _). unfold rho_model.
  apply sum_f_R0_pos. intros i Hi.
  apply Rmult_lt_0_compat; [ apply Halpha; lia | apply exp_pos ].
Qed.

Lemma rho_approximation_positive_witness :
  Forall (fun r => 0 < r) (rho_approximation [5; 7] [1; 2; 0; 0; 3; 4]).
Proof.
  apply (rho_approximation_positive 2 [5; 7] [1; 2; 0; 0; 3; 4]);
    [ lia | reflexivity | ].
  intros [ | [ | i ] ] Hi; cbn [nth]; try lra. lia.
Defined.

Lemma nth_nonneg (l : list R) (i : nat) :
  Forall (fun v => 0 <= v) l -> 0 <= nth i l 0.
Proof.
  intros Hall. destruct (Nat.lt_ge_cases i (length l)) as [Hi | Hi].
  - apply (proj1 (Forall_forall _ l) Hall). now apply nth_In.
  - rewrite nth_overflow by assumption. lra.
Qed.

Lemma exp_le (a b : R) : a <= b -> exp a <= exp b.
Proof.
  intros [Hlt | ->]; [ now apply Rlt_le, exp_increasing | apply Rle_refl ].
Qed.

(** Within the lower bounds of the problem (no parameter negative) the
    predicted density does not grow with altitude. *)
Theorem rho_approximation_decreasing (k : nat) (h params : list R) (i j : nat) :
  length params = (3 * k)%nat -> Forall (fun v => 0 <= v) params ->
  (i < length h)%nat -> (j < length h)%nat -> nth i h 0 <= nth j h 0 ->
  nth j (rho_approximation h params) 0 <= nth i (rho_approximation h params) 0.
Proof.
  intros Hl Hpos Hi Hj Hij.
  rewrite (RealDensity.rho_approximation_model k h params Hl).
  rewrite !(nth_map_in (rho_model k params) h _ 0) by assumption.
  unfold rho_model. apply sum_Rle. intros m _.
  apply Rmult_le_compat_l; [ now apply nth_nonneg | ].
  apply exp_le.
  pose proof (nth_nonneg params (k + m) Hpos). nra.
Qed.

Lemma rho_approximation_decreasing_witness :
  nth 1 (rho_approximation [5; 7] [1; 2; 0]) 0 <= nth 0 (rho_approximation [5; 7] [1; 2; 0]) 0.
Proof.
  apply (rho_approximation_decreasing 1 [5; 7] [1; 2; 0] 0 1);
    [ reflexivity | repeat constructor; lra | simpl; lia | simpl; lia | simpl; lra ].
Defined.

End RealFitness.

(** ** Normalisation of data holding a NaN, on binary64 numbers *)

Module FloatNan.

Import SpecClass SpecFacts FloatBackend FloatFacts FloatOrd.

Lemma is_nan_true (x : float) : PrimFloat.is_nan x = true -> x = nan.
Proof.
  unfold PrimFloat.is_nan. rewrite FloatAxioms.eqb_spec.
  intros E. apply prim_nan.
  destruct (Prim2SF x) as [ s | s | | s m e ]; try reflexivity; exfalso;
    revert E; unfold SFeqb, SFcompare.
  - destruct s; discriminate.
  - destruct s; discriminate.
  - destruct s; rewrite Z.compare_refl, ?Pos.compare_cont_refl, ?Pos.compare_refl;
      cbn; discriminate.
Qed.

Lemma fmin_nan_r (x : float) : fmin x nan = nan.
Proof.
  unfold fmin. destruct (PrimFloat.is_nan x) eqn:E; [ now apply is_nan_true | reflexivity ].
Qed.

Lemma fmax_nan_r (x : float) : fmax x nan = nan.
Proof.
  unfold fmax. destruct (PrimFloat.is_nan x) eqn:E; [ now apply is_nan_true | reflexivity ].
Qed.

Lemma fold_nan_acc (f : float -> float -> float) (l : list float) :
  (forall b, f nan b = nan) -> fold_left f l nan = nan.
Proof.
  intros Hf. induction l as [ | y l IH ]; cbn [fold_left]; [ reflexivity | ].
  now rewrite Hf.
Qed.

(** A NaN anywhere in the array is the result of the reduction. *)
Lemma fold_nan (f : float -> float -> float) (l : list float) (x : float) :
  (forall b, f nan b = nan) -> (forall a, f a nan = nan) ->
  In nan (x :: l) -> fold_left f l x = nan.
Proof.
  intros Hl Hr. revert x. induction l as [ | y l IH ]; intros x Hin.
  - destruct Hin as [-> | []]. reflexivity.
  - cbn [fold_left]. destruct Hin as [-> | [-> | Hin]].
    + rewrite Hl. now apply fold_nan_acc.
    + rewrite Hr. now apply fold_nan_acc.
    + apply IH. now right.
Qed.

(** [2 * (d - nan) / (nan - nan) - 1] is a NaN. *)
Lemma normalize_nan_value (d : float) :
  (float_of_Z 2 * (d - nan) / (nan - nan) - float_of_Z 1)%float = nan.
Proof.
  apply prim_nan.
  rewrite sub_spec, div_spec, !sub_spec.
  change (Prim2SF nan) with S754_nan.
  destruct (Prim2SF (_ * _)%float) as [ [ | ] | [ | ] | | ];
    destruct (Prim2SF (float_of_Z 1)); reflexivity.
Qed.

(** One NaN in the data makes the default minimum and maximum NaN, and with
    them every entry of the normalised array; no exception is raised. *)
Theorem normalize_nan_poisons (L : libm) (data : list float) :
  In nan data ->
  normalize_min_max (H := float_backend L) (H0 := float_ord) data None None =
  Ok (repeat nan (length data)).
Proof.
  intros Hin. unfold normalize_min_max.
  destruct data as [ | x l ]; [ contradiction | ].
  cbn [array_min array_max Py.bind b_min b_max float_ord].
  rewrite (fold_nan fmin l x) by (reflexivity || apply fmin_nan_r || assumption).
  rewrite (fold_nan fmax l x) by (reflexivity || apply fmax_nan_r || assumption).
  f_equal. apply map_constant.
  intros d _. cbn [b_const b_sub b_mul b_div float_backend].
  apply normalize_nan_value.
Qed.

Lemma normalize_nan_poisons_witness :
  normalize_min_max (H := float_backend RefLibm.ref_libm) (H0 := float_ord)
                    [1%float; nan; 3%float] None None =
  Ok [nan; nan; nan].
Proof.
  apply (normalize_nan_poisons RefLibm.ref_libm [1%float; nan; 3%float]).
  right. left. reflexivity.
Defined.

End FloatNan.
